(** * runner_app: program runner with live output distribution

    A shallow embedding of [runner_app.py]: identifier normalisation,
    the feedback tables, the run handler with its two capture pumps,
    the server-sent-event generator and the page selection logic.

    Conventions.
    - A Python [str] is the list of its Unicode code points, a [bytes]
      value the list of its bytes.
    - [os.path] is [posixpath]; [bytes.decode] is CPython's UTF-8
      decoder with its error handlers.
    - The three module-level dictionaries keep their names; [Queue]
      and [Popen] objects are references into a heap, so that aliasing
      between a dictionary entry and the object captured by a thread
      is visible.
    - Request handlers are atomic transitions; the daemon threads (the
      pumps) and the response generators advance one Python statement
      per step, under an arbitrary schedule. *)

From Stdlib Require Import ZArith NArith List String Ascii Lia DecimalString.
From Stdlib Require DecimalPos DecimalZ.
From stdpp Require Import base option list gmap sorting.

Local Open Scope Z_scope.

(* ================================================================= *)
(** ** Text and bytes *)

Abbreviation codepoint := N.
Abbreviation str := (list N).
Abbreviation bytes := (list Byte.byte).

(** A source literal, character by character. *)
Definition lit (s : string) : str :=
  map N_of_ascii (list_ascii_of_string s).

(** [s.encode("ascii")] for a literal, used to write pipe contents. *)
Definition blit (s : string) : bytes :=
  map byte_of_ascii (list_ascii_of_string s).

Definition slash : codepoint := 47%N.
Definition backslash : codepoint := 92%N.
Definition newline : codepoint := 10%N.
Definition nl : str := [newline].

(** Truthiness of an optional string: [None] and [""] are falsy. *)
Definition truthy (o : option str) : bool :=
  match o with
  | Some (_ :: _) => true
  | _ => false
  end.

(** [p.rfind(c)]: the highest index holding [c], or [-1]. *)
Fixpoint rfind_from (i last : Z) (c : codepoint) (p : str) : Z :=
  match p with
  | [] => last
  | x :: p' => rfind_from (i + 1) (if N.eqb x c then i else last) c p'
  end.

Definition rfind (p : str) (c : codepoint) : Z := rfind_from 0 (-1) c p.

(** [os.path.basename] of [posixpath]:
    [i = p.rfind('/') + 1; return p[i:]]. *)
Definition basename (p : str) : str :=
  let i := rfind p slash + 1 in
  drop (Z.to_nat i) p.

(** [name.endswith(suf)]. *)
Definition endswith (name suf : str) : bool :=
  (length suf <=? length name)%nat
  && bool_decide (drop (length name - length suf) name = suf).

(** ["c" in name] for a one-character needle. *)
Definition contains (c : codepoint) (name : str) : bool :=
  bool_decide (c ∈ name).

Definition dot_py : str := lit ".py".

(** [name[:-3]] after the [endswith] test. *)
Definition strip_py (name : str) : str :=
  if endswith name dot_py then take (length name - 3) name else name.

Definition safe_program_name (name : option str) : option str :=
  match name with
  | None => None
  | Some [] => None
  | Some n =>
      let n := basename n in
      let n := strip_py n in
      if contains slash n || contains backslash n then None else Some n
  end.

(* ================================================================= *)
(** ** Exceptions *)

Inductive exn :=
| OSError (errno : Z)
| NumericValueOutOfRange
| UnicodeDecodeError
| AdaptationError.

(** A call either raises or returns. *)
Definition result (A : Type) : Type := (exn + A)%type.

Definition rmap {A B : Type} (f : A -> B) (r : result A) : result B :=
  match r with
  | inl e => inl e
  | inr a => inr (f a)
  end.

(* ================================================================= *)
(** ** [bytes.decode("utf-8", errors=...)] *)

(** The decoder reads a lead byte and the continuation bytes it asks
    for.  An undecodable span is: an invalid lead byte alone; a lead
    byte with the continuation bytes accepted so far, when the next
    byte does not fit; or everything up to the end of the input, when
    the input stops inside a sequence. *)

Inductive errors_mode := Strict | Replace.

Definition replacement_marker : codepoint := 65533%N.

Definition is_continuation (b : N) : bool := ((128 <=? b) && (b <=? 191))%N.

(** What the error handler does with one undecodable span: [Strict]
    raises, [Replace] emits the marker and resumes after the span. *)
Definition on_error (errors : errors_mode) (resume : result str) : result str :=
  match errors with
  | Strict => inl UnicodeDecodeError
  | Replace => rmap (cons replacement_marker) resume
  end.

Definition emit (c : codepoint) (resume : result str) : result str :=
  rmap (cons c) resume.

Definition bits (b mask : N) : N := N.land b mask.

Fixpoint utf8_decode (errors : errors_mode) (s : bytes) : result str :=
  match s with
  | [] => inr []
  | c0 :: s1 =>
    let ch := Byte.to_N c0 in
    if (ch <? 128)%N then emit ch (utf8_decode errors s1)
    else if (ch <? 194)%N then
      (* continuation byte or overlong C0/C1: invalid start byte *)
      on_error errors (utf8_decode errors s1)
    else if (ch <? 224)%N then
      match s1 with
      | [] => on_error errors (inr [])
      | c1 :: s2 =>
        let ch2 := Byte.to_N c1 in
        if negb (is_continuation ch2) then on_error errors (utf8_decode errors s1)
        else emit (N.lor (N.shiftl (bits ch 31) 6) (bits ch2 63))
                  (utf8_decode errors s2)
      end
    else if (ch <? 240)%N then
      match s1 with
      | [] => on_error errors (inr [])
      | c1 :: s2 =>
        let ch2 := Byte.to_N c1 in
        if negb (is_continuation ch2)
           || (if (ch2 <? 160)%N then (ch =? 224)%N else (ch =? 237)%N)
        then on_error errors (utf8_decode errors s1)
        else
          match s2 with
          | [] => on_error errors (inr [])
          | c2 :: s3 =>
            let ch3 := Byte.to_N c2 in
            if negb (is_continuation ch3)
            then on_error errors (utf8_decode errors s2)
            else emit (N.lor (N.shiftl (bits ch 15) 12)
                         (N.lor (N.shiftl (bits ch2 63) 6) (bits ch3 63)))
                      (utf8_decode errors s3)
          end
      end
    else if (ch <? 245)%N then
      match s1 with
      | [] => on_error errors (inr [])
      | c1 :: s2 =>
        let ch2 := Byte.to_N c1 in
        if negb (is_continuation ch2)
           || (if (ch2 <? 144)%N then (ch =? 240)%N else (ch =? 244)%N)
        then on_error errors (utf8_decode errors s1)
        else
          match s2 with
          | [] => on_error errors (inr [])
          | c2 :: s3 =>
            let ch3 := Byte.to_N c2 in
            if negb (is_continuation ch3)
            then on_error errors (utf8_decode errors s2)
            else
              match s3 with
              | [] => on_error errors (inr [])
              | c3 :: s4 =>
                let ch4 := Byte.to_N c3 in
                if negb (is_continuation ch4)
                then on_error errors (utf8_decode errors s3)
                else emit (N.lor (N.shiftl (bits ch 7) 18)
                             (N.lor (N.shiftl (bits ch2 63) 12)
                                (N.lor (N.shiftl (bits ch3 63) 6) (bits ch4 63))))
                          (utf8_decode errors s4)
              end
          end
      end
    else on_error errors (utf8_decode errors s1)
  end.

(** [line.decode("utf-8", errors="replace")] as the pump calls it. *)
Definition decode_replace (line : bytes) : result str := utf8_decode Replace line.

(* ================================================================= *)
(** ** The database

    [program_reactions] and [program_comments] are declared by
    [init_db]: the first is keyed by its primary key [program] and its
    two counters are PostgreSQL [INTEGER]s. *)

(** Modelled from the spec: the table behind the Program Source
    Provider and the Identifier Listing, [runnable_blocks], which is
    created by another program.  Its columns are the ones the queries
    of this file name.  [block_index] is taken as an integer column,
    read back with [str(r[0])]; [cleaned_content] may be NULL, which
    the caller tests with [code_text is None]. *)
Record block_row := {
  block_index : Z;
  cleaned_content : option str;
  block_created_at : Z }.

Record comment_row := {
  comment_program : str;
  comment_text : str;
  comment_created_at : Z }.

Record database := {
  runnable_blocks : list block_row;
  program_reactions : gmap str (Z * Z);
  program_comments : list comment_row }.

(** [str(n)] for an integer. *)
Definition py_str (z : Z) : str := lit (NilZero.string_of_int (Z.to_int z)).

(** [SELECT DISTINCT block_index ... ORDER BY block_index ASC]. *)
Definition distinct_block_indexes (db : database) : list Z :=
  merge_sort Z.le (remove_dups (block_index <$> runnable_blocks db)).

Definition get_programs (db : database) : list str :=
  py_str <$> distinct_block_indexes db.

(** [ORDER BY created_at DESC LIMIT 1]. *)
Definition newer_first (a b : block_row) : Prop :=
  block_created_at b ≤ block_created_at a.

#[global] Instance newer_first_dec : RelDecision newer_first.
Proof. intros a b. unfold newer_first. apply _. Defined.

Definition newest (rows : list block_row) : option block_row :=
  head (merge_sort newer_first rows).

(** [WHERE block_index = %s], as its one call site uses it:
    [run_program] calls it only after the test [program in programs],
    so the parameter is a listed identifier, the printed form of an
    index, which the server's cast to the column type reads back as
    that index.  The rows of that index are the rows whose index
    prints as the parameter; the newest of them, if any, gives
    [row[0]].  For any other text the server's cast decides (another
    spelling of an index finds that index, text that is no number
    raises); the definition does not describe such a call, and no
    property below is stated about one. *)
Definition get_program_code (db : database) (program : str) : option str :=
  match newest (filter (λ r, py_str (block_index r) = program) (runnable_blocks db)) with
  | None => None
  | Some row => cleaned_content row
  end.

Definition get_reactions (db : database) (program : str) : Z * Z :=
  match program_reactions db !! program with
  | None => (0, 0)
  | Some row => row
  end.

(** [ORDER BY created_at ASC] on comments. *)
Definition older_first (a b : comment_row) : Prop :=
  comment_created_at a ≤ comment_created_at b.

#[global] Instance older_first_dec : RelDecision older_first.
Proof. intros a b. unfold older_first. apply _. Defined.

Definition get_program_comments (db : database) (program : str) : list str :=
  comment_text <$>
    merge_sort older_first
      (filter (λ r, comment_program r = program) (program_comments db)).

(** Largest value of an [INTEGER] column; going past it makes the
    statement fail with "integer out of range". *)
Definition int4_max : Z := 2147483647.

Definition set_reactions (db : database) (m : gmap str (Z * Z)) : database :=
  {| runnable_blocks := runnable_blocks db;
     program_reactions := m;
     program_comments := program_comments db |}.

(** What the driver can send as a text parameter: no NUL, and only
    code points that encode to UTF-8. *)
Definition adaptable (text : list N) : bool :=
  forallb (λ c, negb (c =? 0) && (c <=? 1114111)
                && negb ((55296 <=? c) && (c <=? 57343)))%N text.

(** [INSERT ... VALUES (%s, 1, 0) ON CONFLICT (program)
     DO UPDATE SET likes = program_reactions.likes + 1], then commit.
    The driver adapts the parameter first and raises, before any SQL
    is sent, on text it cannot send ([AdaptationError]: a [ValueError]
    for NUL, a [UnicodeEncodeError] for a lone surrogate). *)
Definition increment_like (program : str) (db : database) : result database :=
  if negb (adaptable program) then inl AdaptationError
  else
    match program_reactions db !! program with
    | None => inr (set_reactions db (<[program := (1, 0)]> (program_reactions db)))
    | Some (likes, dislikes) =>
        if likes + 1 <=? int4_max
        then inr (set_reactions db (<[program := (likes + 1, dislikes)]> (program_reactions db)))
        else inl NumericValueOutOfRange
    end.

Definition increment_dislike (program : str) (db : database) : result database :=
  if negb (adaptable program) then inl AdaptationError
  else
    match program_reactions db !! program with
    | None => inr (set_reactions db (<[program := (0, 1)]> (program_reactions db)))
    | Some (likes, dislikes) =>
        if dislikes + 1 <=? int4_max
        then inr (set_reactions db (<[program := (likes, dislikes + 1)]> (program_reactions db)))
        else inl NumericValueOutOfRange
    end.

(* ================================================================= *)
(** ** Application state *)

(** Identity of a [Popen] object and of a [Queue] object. *)
Abbreviation handle := nat.
Abbreviation qref := nat.

Inductive stream_kind := Stdout | Stderr.

(** What the handler and the threads do to the outside world and to
    the registry, in program order. *)
Inductive action :=
| AListing
| ALookup (program : str)
| AKill (h : handle)
| ASpawn (h : handle) (code : str)
| ARegister (program : str) (h : handle)
| AClose (h : handle) (k : stream_kind).

(** Where a pump stands in its loop body. *)
Inductive pump_pc :=
| AtReadline
| AtPut (decoded : str)
| AtAppend (decoded : str)
| PipeClosed.

(** One [pump(pipe, q_, prog)] thread: its three arguments, its
    position, and what it has read, put and appended so far. *)
Record pump_thread := {
  pipe : handle * stream_kind;
  q_ : qref;
  prog : str;
  pump_at : pump_pc;
  lines_read : list bytes;
  delivered : list str;
  appended : list str }.

(** Where an [event_stream()] generator stands. *)
Inductive gen_pc :=
| GenStart
| GenOuter
| GenInner
| GenGet
| GenYield (line : str).

(** One generator: the [q] it closed over, its position, the chunks
    it took from the queue and the items it yielded. *)
Record generator := {
  gen_q : option qref;
  gen_at : gen_pc;
  taken : list str;
  yielded : list str }.

Record state := {
  running_processes : gmap str handle;
  output_queues : gmap str qref;
  last_output : gmap str str;
  queue_heap : list (list str);
  spawned : nat;
  threads : list pump_thread;
  responses : list generator;
  trace : list action }.

Definition initial : state :=
  {| running_processes := ∅; output_queues := ∅; last_output := ∅;
     queue_heap := []; spawned := 0%nat; threads := []; responses := [];
     trace := [] |}.

Definition with_running (f : gmap str handle -> gmap str handle) (s : state) : state :=
  {| running_processes := f (running_processes s); output_queues := output_queues s;
     last_output := last_output s; queue_heap := queue_heap s; spawned := spawned s;
     threads := threads s; responses := responses s; trace := trace s |}.

Definition with_queues (f : gmap str qref -> gmap str qref) (s : state) : state :=
  {| running_processes := running_processes s; output_queues := f (output_queues s);
     last_output := last_output s; queue_heap := queue_heap s; spawned := spawned s;
     threads := threads s; responses := responses s; trace := trace s |}.

Definition with_output (f : gmap str str -> gmap str str) (s : state) : state :=
  {| running_processes := running_processes s; output_queues := output_queues s;
     last_output := f (last_output s); queue_heap := queue_heap s; spawned := spawned s;
     threads := threads s; responses := responses s; trace := trace s |}.

Definition with_heap (f : list (list str) -> list (list str)) (s : state) : state :=
  {| running_processes := running_processes s; output_queues := output_queues s;
     last_output := last_output s; queue_heap := f (queue_heap s); spawned := spawned s;
     threads := threads s; responses := responses s; trace := trace s |}.

Definition with_spawned (n : nat) (s : state) : state :=
  {| running_processes := running_processes s; output_queues := output_queues s;
     last_output := last_output s; queue_heap := queue_heap s; spawned := n;
     threads := threads s; responses := responses s; trace := trace s |}.

Definition with_threads (f : list pump_thread -> list pump_thread) (s : state) : state :=
  {| running_processes := running_processes s; output_queues := output_queues s;
     last_output := last_output s; queue_heap := queue_heap s; spawned := spawned s;
     threads := f (threads s); responses := responses s; trace := trace s |}.

Definition with_responses (f : list generator -> list generator) (s : state) : state :=
  {| running_processes := running_processes s; output_queues := output_queues s;
     last_output := last_output s; queue_heap := queue_heap s; spawned := spawned s;
     threads := threads s; responses := f (responses s); trace := trace s |}.

Definition log (a : action) (s : state) : state :=
  {| running_processes := running_processes s; output_queues := output_queues s;
     last_output := last_output s; queue_heap := queue_heap s; spawned := spawned s;
     threads := threads s; responses := responses s; trace := trace s ++ [a] |}.

(** [last_output] is a [defaultdict(str)]: a missing key reads as [""]. *)
Definition read_output (s : state) (program : str) : str :=
  default [] (last_output s !! program).

(** Contents of a queue object. *)
Definition queue_items (s : state) (r : qref) : list str :=
  default [] (queue_heap s !! r).

(* ================================================================= *)
(** ** Request handlers: state passing with exceptions *)

Definition handler (A : Type) : Type := state -> state * result A.

Definition ret {A : Type} (a : A) : handler A := λ s, (s, inr a).

Definition raise {A : Type} (e : exn) : handler A := λ s, (s, inl e).

Definition bind {A B : Type} (m : handler A) (k : A -> handler B) : handler B :=
  λ s, match m s with
       | (s', inr a) => k a s'
       | (s', inl e) => (s', inl e)
       end.

Notation "x <-- m ;; k" := (bind m (λ x, k))
  (at level 100, m at next level, right associativity).
Notation "m ;;; k" := (bind m (λ _, k))
  (at level 100, right associativity).

Definition modify (f : state -> state) : handler unit := λ s, (f s, inr tt).

Definition gets {A : Type} (f : state -> A) : handler A := λ s, (s, inr (f s)).

(** [try: body / except Exception: pass]; every [exn] here is an
    [Exception]. *)
Definition try_pass (body : handler unit) : handler unit :=
  λ s, match body s with
       | (s', inl _) => (s', inr tt)
       | r => r
       end.

(** What the operating system answers during one request. *)
Record run_env := {
  kill_outcome : option exn;
  popen_outcome : option exn }.

Definition kill (env : run_env) (h : handle) : handler unit :=
  modify (log (AKill h)) ;;;
  match kill_outcome env with
  | Some e => raise e
  | None => ret tt
  end.

(** [q = Queue()]: a new empty queue object. *)
Definition new_queue : handler qref :=
  r <-- gets (λ s, length (queue_heap s)) ;;
  modify (with_heap (λ h, h ++ [[]])) ;;;
  ret r.

(** The temporary file and [subprocess.Popen(["python", tmp_path], ...)]. *)
Definition popen (env : run_env) (code_text : str) : handler handle :=
  match popen_outcome env with
  | Some e => raise e
  | None =>
      h <-- gets spawned ;;
      modify (with_spawned (S h)) ;;;
      modify (log (ASpawn h code_text)) ;;;
      ret h
  end.

Definition new_pump (p : handle * stream_kind) (q : qref) (program : str) : pump_thread :=
  {| pipe := p; q_ := q; prog := program; pump_at := AtReadline;
     lines_read := []; delivered := []; appended := [] |}.

(** [threading.Thread(target=pump, args=(pipe, q, program)).start()]. *)
Definition start_pump (p : handle * stream_kind) (q : qref) (program : str) : handler unit :=
  modify (with_threads (λ ts, ts ++ [new_pump p q program])).

Inductive response := Redirect (program : option str).

(** [program not in programs]. *)
Definition not_in (program : option str) (programs : list str) : bool :=
  match program with
  | None => true
  | Some p => negb (bool_decide (p ∈ programs))
  end.

Definition run_program (db : database) (form : option str) (env : run_env)
  : handler response :=
  let program := safe_program_name form in
  modify (log AListing) ;;;
  let programs := get_programs db in
  if negb (truthy program) || not_in program programs then ret (Redirect program)
  else
    let key := default [] program in
    (* Kill previous instance if running *)
    old <-- gets (λ s, running_processes s !! key) ;;
    match old with
    | Some h => try_pass (kill env h)
    | None => ret tt
    end ;;;
    (* Fresh queue *)
    q <-- new_queue ;;
    modify (with_queues <[key := q]>) ;;;
    modify (with_output <[key := []]>) ;;;
    (* Fetch code *)
    modify (log (ALookup key)) ;;;
    match get_program_code db key with
    | None => ret (Redirect program)
    | Some code_text =>
        p <-- popen env code_text ;;
        modify (with_running <[key := p]>) ;;;
        modify (log (ARegister key p)) ;;;
        start_pump (p, Stdout) q key ;;;
        start_pump (p, Stderr) q key ;;;
        ret (Redirect program)
    end.

(* ================================================================= *)
(** ** The capture pump, one statement per step *)

Definition set_pump (t : pump_thread) (pc : pump_pc) (ls : list bytes)
    (d a : list str) : pump_thread :=
  {| pipe := pipe t; q_ := q_ t; prog := prog t; pump_at := pc;
     lines_read := ls; delivered := d; appended := a |}.

(** [q_.put(decoded)] on the queue object [r]. *)
Definition queue_put (r : qref) (chunk : str) (s : state) : state :=
  with_heap (λ h, <[r := queue_items s r ++ [chunk]]> h) s.

(** [last_output[prog] += decoded]. *)
Definition append_output (program : str) (chunk : str) (s : state) : state :=
  with_output <[program := read_output s program ++ chunk]> s.

(** One step of pump [i]; [line] is what [pipe.readline()] returns if
    the pump is at the head of its loop ([b""] at end of file). *)
Definition pump (i : nat) (line : bytes) (s : state) : state :=
  match threads s !! i with
  | None => s
  | Some t =>
      let put t' := with_threads <[i := t']> in
      match pump_at t with
      | AtReadline =>
          match line with
          | [] =>
              (* iter(pipe.readline, b"") stops; pipe.close() *)
              log (AClose (pipe t).1 (pipe t).2)
                (put (set_pump t PipeClosed (lines_read t) (delivered t) (appended t)) s)
          | _ =>
              match decode_replace line with
              | inr decoded =>
                  put (set_pump t (AtPut decoded) (lines_read t ++ [line])
                         (delivered t) (appended t)) s
              | inl _ =>
                  (* except Exception: pass *)
                  put (set_pump t AtReadline (lines_read t ++ [line])
                         (delivered t) (appended t)) s
              end
          end
      | AtPut decoded =>
          put (set_pump t (AtAppend decoded) (lines_read t)
                 (delivered t ++ [decoded]) (appended t))
            (queue_put (q_ t) decoded s)
      | AtAppend decoded =>
          put (set_pump t AtReadline (lines_read t)
                 (delivered t) (appended t ++ [decoded]))
            (append_output (prog t) decoded s)
      | PipeClosed => s
      end
  end.

(* ================================================================= *)
(** ** The stream endpoint *)

Definition retry_directive : str := lit "retry: 200" ++ nl ++ nl.

(** [f"data: {line}\n\n"]. *)
Definition data_event (line : str) : str := lit "data: " ++ line ++ nl ++ nl.

(** [GET /stream/<program>]: normalise, look the queue up once, and
    hand the generator to the server. *)
Definition stream_program (path : str) (s : state) : state :=
  let program := safe_program_name (Some path) in
  let q := match program with
           | Some p => output_queues s !! p
           | None => None
           end in
  with_responses
    (λ gs, gs ++ [{| gen_q := q; gen_at := GenStart; taken := []; yielded := [] |}]) s.

Definition set_gen (g : generator) (pc : gen_pc) (tk ys : list str) : generator :=
  {| gen_q := gen_q g; gen_at := pc; taken := tk; yielded := ys |}.

(** One step of generator [j].  [time.sleep(0.1)] changes nothing but
    the position; [q.get()] on an empty queue blocks. *)
Definition event_stream (j : nat) (s : state) : state :=
  match responses s !! j with
  | None => s
  | Some g =>
      let put g' := with_responses <[j := g']> in
      match gen_at g with
      | GenStart =>
          put (set_gen g GenOuter (taken g) (yielded g ++ [retry_directive])) s
      | GenOuter =>
          match gen_q g with
          | None => (* time.sleep(0.1); continue *) s
          | Some _ => put (set_gen g GenInner (taken g) (yielded g)) s
          end
      | GenInner =>
          match gen_q g with
          | None => s
          | Some r =>
              match queue_items s r with
              | [] => (* time.sleep(0.1) *) put (set_gen g GenOuter (taken g) (yielded g)) s
              | _ => put (set_gen g GenGet (taken g) (yielded g)) s
              end
          end
      | GenGet =>
          match gen_q g with
          | None => s
          | Some r =>
              match queue_items s r with
              | [] => s
              | line :: rest =>
                  put (set_gen g (GenYield line) (taken g ++ [line]) (yielded g))
                    (with_heap <[r := rest]> s)
              end
          end
      | GenYield line =>
          put (set_gen g GenInner (taken g) (yielded g ++ [data_event line])) s
      end
  end.

(* ================================================================= *)
(** ** The page *)

Record page := {
  page_programs : list str;
  selected_program : option str;
  output_text : str;
  comments : list str;
  like_count : Z;
  dislike_count : Z }.

(** The selection made at the top of [index]. *)
Definition select_program (programs : list str) (selected : option str) : option str :=
  match programs with
  | [] => None
  | first :: _ =>
      if not_in selected programs then Some first else selected
  end.

Definition index (db : database) (arg : option str) (s : state) : page :=
  let programs := get_programs db in
  let selected := safe_program_name arg in
  let chosen := select_program programs selected in
  let shown := truthy chosen in
  let key := default [] chosen in
  {| page_programs := programs;
     selected_program := chosen;
     output_text := if shown then read_output s key else [];
     comments := if shown then get_program_comments db key else [];
     like_count := if shown then (get_reactions db key).1 else 0;
     dislike_count := if shown then (get_reactions db key).2 else 0 |}.

(* ================================================================= *)
(** ** Schedules *)

Inductive event :=
| PostRun (db : database) (form : option str) (env : run_env)
| GetStream (path : str)
| PumpStep (i : nat) (line : bytes)
| StreamStep (j : nat).

Definition step (s : state) (e : event) : state :=
  match e with
  | PostRun db form env => (run_program db form env s).1
  | GetStream path => stream_program path s
  | PumpStep i line => pump i line s
  | StreamStep j => event_stream j s
  end.

Definition exec (es : list event) (s : state) : state := fold_left step es s.

(** The run of [lines] through pump [i] with nothing else scheduled:
    each line takes the three steps read, put, append. *)
Definition pump_alone (i : nat) (lines : list bytes) : list event :=
  lines ≫= λ l, [PumpStep i l; PumpStep i []; PumpStep i []].

(* ================================================================= *)
(** ** Predicates on threads *)

Definition is_ascii (b : Byte.byte) : Prop := (Byte.to_N b < 128)%N.

(** [chunks] are the decodings of [lines], one for one. *)
Definition decodes (lines : list bytes) (chunks : list str) : Prop :=
  Forall2 (λ l c, decode_replace l = inr c) lines chunks.

(** A pump's history agrees with its position: every line read has
    been decoded and put, except the one in hand before the put; every
    chunk put has been appended, except the one in hand before the
    append. *)
Definition pump_ok (t : pump_thread) : Prop :=
  match pump_at t with
  | AtPut d => decodes (lines_read t) (delivered t ++ [d]) ∧ appended t = delivered t
  | AtAppend d => decodes (lines_read t) (delivered t) ∧ delivered t = appended t ++ [d]
  | AtReadline | PipeClosed =>
      decodes (lines_read t) (delivered t) ∧ appended t = delivered t
  end.

(** What a generator has yielded: nothing before its first step, then
    the retry directive followed by one [data_event] per chunk taken,
    the chunk in hand still to come. *)
Definition framed (g : generator) : Prop :=
  match gen_at g with
  | GenStart => yielded g = [] ∧ taken g = []
  | GenYield line =>
      ∃ before, taken g = before ++ [line]
                ∧ yielded g = retry_directive :: (data_event <$> before)
  | GenOuter | GenInner | GenGet =>
      yielded g = retry_directive :: (data_event <$> taken g)
  end.

(** Generator [j] is polling and has nothing to take. *)
Definition idle_at (j : nat) (s : state) : Prop :=
  ∃ g, responses s !! j = Some g
       ∧ (gen_at g = GenOuter ∨ gen_at g = GenInner)
       ∧ (gen_q g = None ∨ ∃ r, gen_q g = Some r ∧ queue_items s r = []).

(* ================================================================= *)
(** ** Feedback handlers *)

(** The characters [str.strip()] removes: CPython's
    [_PyUnicode_IsWhitespace]. *)
Definition is_space (c : N) : bool :=
  ((9 <=? c) && (c <=? 13) || (28 <=? c) && (c <=? 32)
   || (c =? 133) || (c =? 160) || (c =? 5760)
   || (8192 <=? c) && (c <=? 8202)
   || (c =? 8232) || (c =? 8233) || (c =? 8239) || (c =? 8287)
   || (c =? 12288))%N.

Fixpoint lstrip (s : list N) : list N :=
  match s with
  | [] => []
  | c :: s' => if is_space c then lstrip s' else s
  end.

Definition rstrip (s : list N) : list N := reverse (lstrip (reverse s)).

(** [s.strip()]. *)
Definition strip (s : list N) : list N := rstrip (lstrip s).

Inductive adapt_error := NotAdaptable.

Definition set_comments (db : database) (rows : list comment_row) : database :=
  {| runnable_blocks := runnable_blocks db;
     program_reactions := program_reactions db;
     program_comments := rows |}.

(** [INSERT INTO program_comments (program, comment) VALUES (%s, %s)];
    [created_at] defaults to [NOW()], here [now]. *)
Definition add_program_comment (now : Z) (program text : list N) (db : database)
  : adapt_error + database :=
  if adaptable program && adaptable text
  then inr (set_comments db
              (program_comments db
               ++ [{| comment_program := program; comment_text := text;
                      comment_created_at := now |}]))
  else inl NotAdaptable.

(** [POST /comment]. *)
Definition add_comment (now : Z) (form_program form_comment : option (list N))
    (db : database) : adapt_error + database * response :=
  let program := safe_program_name form_program in
  let text := strip (default [] form_comment) in
  let programs := get_programs db in
  if truthy program && negb (not_in program programs) && truthy (Some text)
  then
    match add_program_comment now (default [] program) text db with
    | inl e => inl e
    | inr db' => inr (db', Redirect program)
    end
  else inr (db, Redirect program).

(** [POST /like]. *)
Definition like_program (form : option (list N)) (db : database)
  : result (database * response) :=
  let program := safe_program_name form in
  let programs := get_programs db in
  if truthy program && negb (not_in program programs)
  then
    match increment_like (default [] program) db with
    | inl e => inl e
    | inr db' => inr (db', Redirect program)
    end
  else inr (db, Redirect program).

(** [POST /dislike]. *)
Definition dislike_program (form : option (list N)) (db : database)
  : result (database * response) :=
  let program := safe_program_name form in
  let programs := get_programs db in
  if truthy program && negb (not_in program programs)
  then
    match increment_dislike (default [] program) db with
    | inl e => inl e
    | inr db' => inr (db', Redirect program)
    end
  else inr (db, Redirect program).

(** A decimal digit or the minus sign. *)
Definition is_numeral_char (c : N) : Prop := (48 ≤ c ≤ 57)%N ∨ c = 45%N.

(* ================================================================= *)
(** ** Bookkeeping over the whole state *)

(** No reference dangles: tracked handles were spawned, and every
    queue a dictionary entry, a pump or a generator holds exists. *)
Definition well_formed (s : state) : Prop :=
  map_Forall (λ _ h, (h < spawned s)%nat) (running_processes s)
  ∧ map_Forall (λ _ r, (r < length (queue_heap s))%nat) (output_queues s)
  ∧ Forall (λ t, (q_ t < length (queue_heap s))%nat) (threads s)
  ∧ Forall (λ g, ∀ r, gen_q g = Some r -> (r < length (queue_heap s))%nat)
           (responses s).

(** The two pipes of process [h]. *)
Definition pipes_of (h : nat) : list (nat * stream_kind) := [(h, Stdout); (h, Stderr)].

(** Everything pumps have put on queue [r]. *)
Definition put_on (r : nat) (s : state) : list (list N) :=
  concat ((λ t, if decide (q_ t = r) then delivered t else []) <$> threads s).

(** Everything generators have taken from queue [r]. *)
Definition taken_from (r : nat) (s : state) : list (list N) :=
  concat ((λ g, if decide (gen_q g = Some r) then taken g else []) <$> responses s).

(** Queue by queue, what was put is what was taken plus what waits. *)
Definition conserved (s : state) : Prop :=
  ∀ r, put_on r s ≡ₚ taken_from r s ++ queue_items s r.

(** A generator that closed over no queue and has at most announced
    itself. *)
Definition unbound (g : generator) : Prop :=
  gen_q g = None ∧ taken g = []
  ∧ (gen_at g = GenStart ∧ yielded g = []
     ∨ gen_at g = GenOuter ∧ yielded g = [retry_directive]).

(** Stepping generator [j] often enough to relay [n] waiting chunks:
    test, get and yield for each. *)
Definition relay (j n : nat) : list event := replicate (3 * n) (StreamStep j).

(** An event ends with exactly one blank line: it ends in two
    newlines and what precedes them does not end in a newline. *)
Definition ends_with_one_blank_line (e : list N) : Prop :=
  ∃ body, e = body ++ [newline; newline] ∧ last body ≠ Some newline.

(* ================================================================= *)
(** ** Sample data *)

Definition calm : run_env := {| kill_outcome := None; popen_outcome := None |}.

(** A database whose only runnable block is [n]. *)
Definition single_block (n : Z) (content : option str) : database :=
  {| runnable_blocks :=
       [{| block_index := n; cleaned_content := content; block_created_at := 0 |}];
     program_reactions := ∅;
     program_comments := [] |}.

(** A database with one reactions row. *)
Definition single_reaction (program : str) (likes dislikes : Z) : database :=
  {| runnable_blocks := [];
     program_reactions := {[ program := (likes, dislikes) ]};
     program_comments := [] |}.

(** One line of process output, newline included. *)
Definition out_line (text : string) : bytes := blit text ++ [Byte.x0a].

(** Symbolic evaluation of a handler. *)
Ltac run_handler :=
  unfold bind, modify, gets, ret, raise, try_pass, kill, new_queue, popen, start_pump;
  cbn [log with_running with_queues with_output with_heap with_spawned
       with_threads with_responses
       running_processes output_queues last_output queue_heap spawned
       threads responses trace fst snd from_option id].

(* ================================================================= *)
(** * Properties *)

(** ** Identifier normalisation *)

Lemma rfind_from_absent c p : ∀ i last, c ∉ p -> rfind_from i last c p = last.
Proof.
  induction p as [|x p IH]; intros i last Hc; simpl; [done|].
  apply not_elem_of_cons in Hc as [Hx Hp].
  destruct (N.eqb_spec x c) as [->|_]; [done|]. by apply IH.
Qed.



Lemma basename_plain p : slash ∉ p -> basename p = p.
Proof.
  intros Hp. unfold basename, rfind. by rewrite rfind_from_absent.
Qed.







(** ** The listing *)

Lemma distinct_block_indexes_elem db k :
  k ∈ distinct_block_indexes db <-> k ∈ block_index <$> runnable_blocks db.
Proof.
  unfold distinct_block_indexes.
  rewrite merge_sort_Permutation. apply elem_of_remove_dups.
Qed.


(** ** The run handler *)

Lemma run_program_rejected db form env s :
  truthy (safe_program_name form) = false
  ∨ not_in (safe_program_name form) (get_programs db) = true ->
  run_program db form env s = (log AListing s, inr (Redirect (safe_program_name form))).
Proof.
  intros H. unfold run_program, bind, modify, ret. simpl.
  destruct H as [-> | ->]; [done|]. by rewrite orb_true_r.
Qed.

Lemma validated form key programs :
  safe_program_name form = Some key -> key ≠ [] -> key ∈ programs ->
  negb (truthy (safe_program_name form)) || not_in (safe_program_name form) programs = false.
Proof.
  intros -> Hne Hin. destruct key; [done|]. simpl.
  by rewrite bool_decide_eq_true_2.
Qed.

Lemma validated_inv (o : option (list N)) programs :
  negb (truthy o) || not_in o programs = false ->
  ∃ key, o = Some key ∧ key ≠ [] ∧ key ∈ programs.
Proof.
  intros [Ht Hn]%orb_false_iff. destruct o as [[|c key]|]; try done.
  exists (c :: key). split; [done|]. split; [done|].
  cbn [not_in] in Hn. by apply negb_false_iff, bool_decide_eq_true in Hn.
Qed.

Lemma run_program_accepted db form env s key :
  safe_program_name form = Some key -> key ≠ [] -> key ∈ get_programs db ->
  run_program db form env s =
    let s1 := log AListing s in
    let s2 := match running_processes s !! key with
              | Some h => log (AKill h) s1
              | None => s1
              end in
    let q := length (queue_heap s) in
    let s3 := log (ALookup key)
                (with_output <[key := []]>
                   (with_queues <[key := q]>
                      (with_heap (λ h, h ++ [[]]) s2))) in
    match get_program_code db key with
    | None => (s3, inr (Redirect (Some key)))
    | Some code_text =>
        match popen_outcome env with
        | Some e => (s3, inl e)
        | None =>
            let p := spawned s in
            (with_threads (λ ts, ts ++ [new_pump (p, Stderr) q key])
               (with_threads (λ ts, ts ++ [new_pump (p, Stdout) q key])
                  (log (ARegister key p)
                     (with_running <[key := p]>
                        (log (ASpawn p code_text) (with_spawned (S p) s3))))),
             inr (Redirect (Some key)))
        end
    end.
Proof.
  intros Hsafe Hne Hin.
  unfold run_program. rewrite (validated _ _ _ Hsafe Hne Hin), Hsafe.
  run_handler.
  destruct (running_processes s !! key) as [h|]; run_handler;
    [destruct (kill_outcome env); run_handler|];
    (destruct (get_program_code db key); run_handler; [|reflexivity];
     destruct (popen_outcome env); run_handler; reflexivity).
Qed.

(** ** Claims about the run handler *)

(** C1 (as the code has it).  When the source-text lookup fails for a
    validated identifier, no process is launched, no pump is started and
    the registry is left alone; but by then the handler has already
    sent [kill] to the tracked process, installed a fresh empty queue
    under the identifier and reset its replay buffer to [""]. *)
Theorem run_program_lookup_failure db form env s key :
  safe_program_name form = Some key -> key ≠ [] -> key ∈ get_programs db ->
  get_program_code db key = None ->
  let out := run_program db form env s in
  out.2 = inr (Redirect (Some key))
  ∧ running_processes out.1 = running_processes s
  ∧ spawned out.1 = spawned s
  ∧ threads out.1 = threads s
  ∧ responses out.1 = responses s
  ∧ queue_heap out.1 = queue_heap s ++ [[]]
  ∧ output_queues out.1 = <[key := length (queue_heap s)]> (output_queues s)
  ∧ last_output out.1 = <[key := []]> (last_output s)
  ∧ trace out.1 =
      trace s ++ [AListing]
        ++ match running_processes s !! key with
           | Some h => [AKill h]
           | None => []
           end
        ++ [ALookup key].
Proof.
  intros Hsafe Hne Hin Hcode out. subst out.
  rewrite (run_program_accepted _ _ _ _ _ Hsafe Hne Hin), Hcode.
  destruct (running_processes s !! key) as [h|];
    cbn -[lookup insert]; rewrite <- ?app_assoc; repeat split; reflexivity.
Qed.

Lemma run_program_lookup_failure_witness :
  (run_program (single_block 3 None) (Some (lit "3")) calm initial).2
  = inr (Redirect (Some (lit "3"))).
Proof.
  refine (proj1 (run_program_lookup_failure (single_block 3 None)
                   (Some (lit "3")) calm initial (lit "3") _ _ _ _)).
  - reflexivity.
  - discriminate.
  - vm_compute. apply list_elem_of_here.
  - reflexivity.
Defined.

(** C1, refuted as stated: program 3 has run and printed [old]; its
    block then has no source text.  The next run request kills handle 0,
    replaces the queue and empties the replay buffer. *)
Lemma lookup_failure_mutates_state :
  let s := exec (PostRun (single_block 3 (Some (lit "print('old')"))) (Some (lit "3")) calm
                 :: pump_alone 0 [out_line "old"]) initial in
  let s' := (run_program (single_block 3 None) (Some (lit "3")) calm s).1 in
  get_program_code (single_block 3 None) (lit "3") = None
  ∧ last_output s !! lit "3" = Some (lit "old" ++ nl)
  ∧ last_output s' !! lit "3" = Some []
  ∧ output_queues s !! lit "3" = Some 0%nat
  ∧ output_queues s' !! lit "3" = Some 1%nat
  ∧ trace s' = trace s ++ [AListing; AKill 0%nat; ALookup (lit "3")].
Proof. vm_compute. repeat split; reflexivity. Qed.

(** C6.  With a tracked process [old] under the identifier, a run
    request that returns to its caller either stores nothing in the
    registry, or has sent [kill] to [old] before the lookup, the spawn
    and the registry write, in that order.  For a listed identifier
    the [kill] is always sent.  Whether [kill] raises makes no
    difference to the outcome, and the only exception that can leave
    the handler is the launcher's. *)
Theorem kill_precedes_register db form env s key old :
  safe_program_name form = Some key ->
  running_processes s !! key = Some old ->
  let out := run_program db form env s in
  out = run_program db form
          {| kill_outcome := None; popen_outcome := popen_outcome env |} s
  ∧ (∀ e, out.2 = inl e -> popen_outcome env = Some e)
  ∧ (key ≠ [] -> key ∈ get_programs db ->
       ∃ rest, trace out.1 = trace s ++ AListing :: AKill old :: rest)
  ∧ (∀ resp, out.2 = inr resp ->
       (running_processes out.1 = running_processes s
        ∧ (trace out.1 = trace s ++ [AListing]
           ∨ trace out.1 = trace s ++ [AListing; AKill old; ALookup key]))
       ∨ (∃ code_text,
            trace out.1 =
              trace s ++ [AListing; AKill old; ALookup key;
                          ASpawn (spawned s) code_text;
                          ARegister key (spawned s)]
            ∧ running_processes out.1
              = <[key := spawned s]> (running_processes s))).
Proof.
  intros Hsafe Hold out. subst out.
  destruct (negb (truthy (safe_program_name form))
            || not_in (safe_program_name form) (get_programs db)) eqn:Hv.
  - assert (truthy (safe_program_name form) = false
            ∨ not_in (safe_program_name form) (get_programs db) = true) as Hrej.
    { apply orb_true_iff in Hv as [Hv|Hv]; [left|right]; [|done].
      by apply negb_true_iff. }
    rewrite !(run_program_rejected _ _ _ _ Hrej). cbn [fst snd trace log].
    split; [done|]. split; [done|]. split.
    + intros Hne Hin. by rewrite (validated _ _ _ Hsafe Hne Hin) in Hv.
    + intros resp _. left. split; [done|]. by left.
  - apply validated_inv in Hv as (key' & Hsafe' & Hne & Hin).
    rewrite Hsafe in Hsafe'. injection Hsafe' as <-.
    rewrite !(run_program_accepted _ _ _ _ _ Hsafe Hne Hin), Hold.
    cbn [popen_outcome].
    destruct (get_program_code db key) as [code_text|];
      [destruct (popen_outcome env) as [e|]|];
      cbn -[lookup insert]; rewrite <- ?app_assoc; cbn [app].
    + split; [done|]. split; [by intros ? [= ->]|]. split; [by eexists|]. done.
    + split; [done|]. split; [done|]. split; [by eexists|].
      intros resp _. right. by exists code_text.
    + split; [done|]. split; [done|]. split; [by eexists|].
      intros resp _. left. split; [done|]. by right.
Qed.

Lemma kill_precedes_register_witness :
  ∃ rest,
    trace (run_program (single_block 7 (Some (lit "pass"))) (Some (lit "7"))
             {| kill_outcome := Some (OSError 1); popen_outcome := None |}
             (with_running <[lit "7" := 5%nat]> initial)).1
    = trace (with_running <[lit "7" := 5%nat]> initial) ++ AListing :: AKill 5%nat :: rest.
Proof.
  refine (proj1 (proj2 (proj2 (kill_precedes_register
            (single_block 7 (Some (lit "pass"))) (Some (lit "7"))
            {| kill_outcome := Some (OSError 1); popen_outcome := None |}
            (with_running <[lit "7" := 5%nat]> initial) (lit "7") 5%nat _ _))) _ _).
  - reflexivity.
  - reflexivity.
  - discriminate.
  - vm_compute. apply list_elem_of_here.
Defined.

(** ** Claims about normalisation, selection and reactions *)






(** C10 (as the code has it).  For a program string the driver can
    send and a counter below the [INTEGER] maximum, [increment_like]
    succeeds, adds exactly 1 to the program's likes (a missing row
    counts as 0/0 and is inserted as 1/0), keeps its dislikes and
    every other row; [increment_dislike] is symmetric.  At the maximum
    either call raises and stores nothing, and so does either call,
    whatever the counters, for a string the driver refuses. *)
Theorem increment_frames db program :
  (adaptable program = true ->
     ((get_reactions db program).1 < int4_max ->
        ∃ db', increment_like program db = inr db'
          ∧ get_reactions db' program
            = ((get_reactions db program).1 + 1, (get_reactions db program).2)
          ∧ (∀ other, other ≠ program ->
               program_reactions db' !! other = program_reactions db !! other)
          ∧ runnable_blocks db' = runnable_blocks db
          ∧ program_comments db' = program_comments db)
     ∧ ((get_reactions db program).2 < int4_max ->
        ∃ db', increment_dislike program db = inr db'
          ∧ get_reactions db' program
            = ((get_reactions db program).1, (get_reactions db program).2 + 1)
          ∧ (∀ other, other ≠ program ->
               program_reactions db' !! other = program_reactions db !! other)
          ∧ runnable_blocks db' = runnable_blocks db
          ∧ program_comments db' = program_comments db)
     ∧ (int4_max ≤ (get_reactions db program).1 ->
        increment_like program db = inl NumericValueOutOfRange)
     ∧ (int4_max ≤ (get_reactions db program).2 ->
        increment_dislike program db = inl NumericValueOutOfRange))
  ∧ (adaptable program = false ->
     increment_like program db = inl AdaptationError
     ∧ increment_dislike program db = inl AdaptationError).
Proof.
  unfold increment_like, increment_dislike, get_reactions.
  split; [|by intros ->]. intros ->. cbn [negb].
  split; [|split; [|split]]; intros Hlt;
    [| |destruct (program_reactions db !! program) as [[likes dislikes]|];
         cbn [fst snd] in *; [|unfold int4_max in Hlt; lia];
         by rewrite (proj2 (Z.leb_gt _ _)) by lia..].
  - destruct (program_reactions db !! program) as [[likes dislikes]|] eqn:Hrow;
      cbn [fst snd] in *.
    + rewrite (proj2 (Z.leb_le _ _)) by lia.
      eexists; split; [reflexivity|]. cbn [set_reactions program_reactions
        runnable_blocks program_comments].
      rewrite lookup_insert_eq. repeat split; try done.
      intros other Ho. by rewrite lookup_insert_ne.
    + eexists; split; [reflexivity|]. cbn [set_reactions program_reactions
        runnable_blocks program_comments].
      rewrite lookup_insert_eq. repeat split; try done.
      intros other Ho. by rewrite lookup_insert_ne.
  - destruct (program_reactions db !! program) as [[likes dislikes]|] eqn:Hrow;
      cbn [fst snd] in *.
    + rewrite (proj2 (Z.leb_le _ _)) by lia.
      eexists; split; [reflexivity|]. cbn [set_reactions program_reactions
        runnable_blocks program_comments].
      rewrite lookup_insert_eq. repeat split; try done.
      intros other Ho. by rewrite lookup_insert_ne.
    + eexists; split; [reflexivity|]. cbn [set_reactions program_reactions
        runnable_blocks program_comments].
      rewrite lookup_insert_eq. repeat split; try done.
      intros other Ho. by rewrite lookup_insert_ne.
Qed.

Lemma increment_frames_witness :
  ∃ db', increment_like (lit "7") (single_reaction (lit "7") 4 2) = inr db'
         ∧ get_reactions db' (lit "7") = (5, 2).
Proof.
  destruct (proj1 (proj1 (increment_frames (single_reaction (lit "7") 4 2) (lit "7"))
                     eq_refl))
    as (db' & Hrun & Hget & _).
  - vm_compute. reflexivity.
  - exists db'. split; [exact Hrun | exact Hget].
Defined.

(** C10, refuted as stated: at the [INTEGER] maximum the update fails
    and the count is not increased; and a program string holding a NUL
    is refused by the driver, so that no row is inserted for it. *)
Lemma increment_like_at_maximum :
  get_reactions (single_reaction (lit "7") 2147483647 0) (lit "7") = (2147483647, 0)
  ∧ increment_like (lit "7") (single_reaction (lit "7") 2147483647 0)
    = inl NumericValueOutOfRange
  ∧ increment_dislike (lit "7") (single_reaction (lit "7") 0 2147483647)
    = inl NumericValueOutOfRange
  ∧ increment_like (lit "a" ++ [0%N] ++ lit "b") (single_reaction (lit "7") 0 0)
    = inl AdaptationError.
Proof. vm_compute. repeat split; reflexivity. Qed.

(** ** Decoding *)

Ltac decode_cases :=
  repeat match goal with
  | |- context [if ?b then _ else _] => destruct b eqn:?
  | |- context [match ?l with [] => _ | _ :: _ => _ end] => is_var l; destruct l
  end.

Lemma utf8_decode_replace_total_upto n : ∀ s,
  (length s ≤ n)%nat -> ∃ t, utf8_decode Replace s = inr t.
Proof.
  induction n as [|n IH]; intros [|c0 s1] Hlen; cbn [length] in Hlen;
    try (by eexists); try lia.
  cbn [utf8_decode]. decode_cases; cbn [length] in Hlen;
    unfold on_error, emit;
    try match goal with
        | |- context [utf8_decode Replace ?x] =>
            destruct (IH x) as [t ->]; [cbn [length]; lia|]
        end;
    eexists; reflexivity.
Qed.

Lemma utf8_decode_replace_total s : ∃ t, utf8_decode Replace s = inr t.
Proof. by apply (utf8_decode_replace_total_upto (length s)). Qed.

Lemma decode_replace_total line : ∃ chunk, decode_replace line = inr chunk.
Proof. apply utf8_decode_replace_total. Qed.

Lemma rmap_cons_inr (c : N) (r : result (list N)) (t : list N) :
  rmap (cons c) r = inr t -> ∃ t', r = inr t' ∧ t = c :: t'.
Proof. destruct r as [e|t']; simpl; [done|]. intros [= <-]. by exists t'. Qed.




Lemma utf8_decode_ascii errors t :
  Forall is_ascii t -> utf8_decode errors t = inr (Byte.to_N <$> t).
Proof.
  induction 1 as [|b t Hb _ IH]; [done|].
  cbn [utf8_decode]. apply N.ltb_lt in Hb. rewrite Hb. unfold emit.
  by rewrite IH.
Qed.

Lemma ascii_not_continuation b : is_ascii b -> is_continuation (Byte.to_N b) = false.
Proof.
  unfold is_ascii, is_continuation. intros Hb.
  apply andb_false_iff. left. apply N.leb_gt. lia.
Qed.

Lemma utf8_decode_ascii_suffix_upto n b t' : 
  is_ascii b -> Forall is_ascii t' ->
  ∀ s a, (length s ≤ n)%nat ->
  utf8_decode Replace s = inr a ->
  utf8_decode Replace (s ++ b :: t') = inr (a ++ (Byte.to_N <$> b :: t')).
Proof.
  intros Hb Ht'.
  assert (utf8_decode Replace (b :: t') = inr (Byte.to_N <$> b :: t')) as Htail.
  { apply utf8_decode_ascii. by constructor. }
  pose proof (ascii_not_continuation b Hb) as Hcont.
  induction n as [|n IH]; intros [|c0 s1] a Hlen Ha; cbn [length] in Hlen; try lia.
  - injection Ha as <-. exact Htail.
  - injection Ha as <-. exact Htail.
  - cbn [app]. cbn [utf8_decode] in Ha |- *.
    repeat first
      [ progress cbn [app negb orb] in *
      | rewrite Hcont
      | match goal with
        | H : context [if ?c then _ else _] |- _ => destruct c eqn:?
        | H : context [match ?l with [] => _ | _ :: _ => _ end] |- _ =>
            is_var l; destruct l
        end ];
    unfold on_error, emit in *;
    apply rmap_cons_inr in Ha as (a' & Ha & ->);
    first
      [ injection Ha as <-; rewrite Htail; reflexivity
      | match type of Ha with
        | utf8_decode Replace ?x = _ =>
            let IH' := fresh in
            assert (utf8_decode Replace (x ++ b :: t')
                    = inr (a' ++ (Byte.to_N <$> b :: t'))) as IH'
              by (apply IH; [cbn [length] in *; lia | exact Ha]);
            cbn [app] in IH'; rewrite IH'; reflexivity
        end ].
Qed.

Lemma utf8_decode_ascii_suffix s t a :
  Forall is_ascii t -> utf8_decode Replace s = inr a ->
  utf8_decode Replace (s ++ t) = inr (a ++ (Byte.to_N <$> t)).
Proof.
  intros Ht Ha. destruct Ht as [|b t' Hb Ht'].
  - by rewrite !app_nil_r.
  - by apply (utf8_decode_ascii_suffix_upto (length s)).
Qed.

(** ** Threads under any schedule *)

Lemma new_pump_ok p q program : pump_ok (new_pump p q program).
Proof. split; [constructor | done]. Qed.

Lemma run_program_threads db form env s :
  responses (run_program db form env s).1 = responses s
  ∧ ∃ extra, threads (run_program db form env s).1 = threads s ++ extra
             ∧ Forall pump_ok extra.
Proof.
  destruct (negb (truthy (safe_program_name form))
            || not_in (safe_program_name form) (get_programs db)) eqn:Hv.
  - rewrite run_program_rejected.
    + split; [done|]. exists []. by rewrite app_nil_r.
    + apply orb_true_iff in Hv as [Hv|Hv]; [left|right]; [|done].
      by apply negb_true_iff.
  - apply validated_inv in Hv as (key & Hsafe & Hne & Hin).
    rewrite (run_program_accepted _ _ _ _ _ Hsafe Hne Hin).
    destruct (get_program_code db key); [destruct (popen_outcome env)|];
      (split; [by destruct (running_processes s !! key)|]).
    + exists []. rewrite app_nil_r. by destruct (running_processes s !! key).
    + eexists [_; _]. split.
      * cbn [fst threads with_threads]. rewrite <- app_assoc. cbn [app].
        f_equal. by destruct (running_processes s !! key).
      * repeat constructor; apply new_pump_ok.
    + exists []. rewrite app_nil_r. by destruct (running_processes s !! key).
Qed.

Lemma pump_step_responses i line s : responses (pump i line s) = responses s.
Proof.
  unfold pump. destruct (threads s !! i) as [t|]; [|done].
  destruct (pump_at t); [destruct line; [|destruct (decode_replace _)]| | |]; done.
Qed.

Lemma event_stream_threads j s : threads (event_stream j s) = threads s.
Proof.
  unfold event_stream. destruct (responses s !! j) as [g|]; [|done].
  destruct (gen_at g); try done;
    destruct (gen_q g); try done; destruct (queue_items s _); done.
Qed.

Lemma pump_step_ok i line s :
  Forall pump_ok (threads s) -> Forall pump_ok (threads (pump i line s)).
Proof.
  intros Hall. unfold pump.
  destruct (threads s !! i) as [t|] eqn:Hi; [|done].
  pose proof (Forall_lookup_1 _ _ _ _ Hall Hi) as Ht. unfold pump_ok in Ht.
  destruct (pump_at t) as [|d|d|] eqn:Hpc; [| | |done].
  - destruct line as [|b line].
    + cbn [threads with_threads log]. apply Forall_insert; [done|].
      unfold pump_ok. cbn. done.
    + destruct (decode_replace_total (b :: line)) as [chunk Hc]. rewrite Hc.
      cbn [threads with_threads]. apply Forall_insert; [done|].
      unfold pump_ok. cbn. destruct Ht as [Hd Ha]. split; [|done].
      apply Forall2_app; [done|]. by constructor.
  - cbn [threads with_threads queue_put]. apply Forall_insert; [done|].
    unfold pump_ok. cbn. destruct Ht as [Hd Ha]. split; [done|]. by rewrite Ha.
  - cbn [threads with_threads append_output with_output]. apply Forall_insert; [done|].
    unfold pump_ok. cbn. destruct Ht as [Hd Ha]. done.
Qed.

Lemma event_stream_framed j s :
  Forall framed (responses s) -> Forall framed (responses (event_stream j s)).
Proof.
  intros Hall. unfold event_stream.
  destruct (responses s !! j) as [g|] eqn:Hj; [|done].
  pose proof (Forall_lookup_1 _ _ _ _ Hall Hj) as Hg. unfold framed in Hg.
  destruct (gen_at g) as [| | | |line] eqn:Hpc.
  - cbn [responses with_responses]. apply Forall_insert; [done|].
    unfold framed. cbn. destruct Hg as [-> ->]. done.
  - destruct (gen_q g); [|done].
    cbn [responses with_responses]. apply Forall_insert; [done|].
    unfold framed. cbn. done.
  - destruct (gen_q g) as [r|]; [|done].
    destruct (queue_items s r);
      cbn [responses with_responses]; (apply Forall_insert; [done|]);
      unfold framed; cbn; done.
  - destruct (gen_q g) as [r|]; [|done].
    destruct (queue_items s r) as [|line rest]; [done|].
    cbn [responses with_responses with_heap]. apply Forall_insert; [done|].
    unfold framed. cbn. by exists (taken g).
  - cbn [responses with_responses]. apply Forall_insert; [done|].
    unfold framed. cbn. destruct Hg as (before & -> & ->).
    by rewrite fmap_app.
Qed.

Lemma step_ok e s :
  Forall pump_ok (threads s) ∧ Forall framed (responses s) ->
  Forall pump_ok (threads (step s e)) ∧ Forall framed (responses (step s e)).
Proof.
  intros [Hp Hg]. destruct e as [db form env|path|i line|j]; cbn [step].
  - destruct (run_program_threads db form env s) as (-> & extra & -> & Hextra).
    split; [by apply Forall_app|done].
  - split; [done|]. cbn [stream_program responses with_responses].
    apply Forall_app. split; [done|]. repeat constructor.
  - rewrite pump_step_responses. split; [by apply pump_step_ok|done].
  - rewrite event_stream_threads. split; [done|by apply event_stream_framed].
Qed.

Lemma exec_ok es : ∀ s,
  Forall pump_ok (threads s) ∧ Forall framed (responses s) ->
  Forall pump_ok (threads (exec es s)) ∧ Forall framed (responses (exec es s)).
Proof.
  induction es as [|e es IH]; intros s Hs; [done|].
  cbn [exec fold_left]. apply IH. by apply step_ok.
Qed.

Lemma initial_ok : Forall pump_ok (threads initial) ∧ Forall framed (responses initial).
Proof. split; constructor. Qed.

(** ** Claims about pumps and streams *)

Lemma pump_ok_prefix t :
  pump_ok t ->
  appended t `prefix_of` delivered t
  ∧ (length (delivered t) ≤ S (length (appended t)))%nat.
Proof.
  unfold pump_ok. intros Ht.
  destruct (pump_at t); destruct Ht as [_ Ha]; rewrite Ha;
    try (split; [done | lia]).
  split; [by apply prefix_app_r | rewrite length_app; cbn [length]; lia].
Qed.

Lemma framed_prefix g :
  framed g ->
  yielded g `prefix_of` retry_directive :: (data_event <$> taken g)
  ∧ (length (taken g) ≤ length (yielded g))%nat.
Proof.
  unfold framed. intros Hf. destruct (gen_at g).
  - destruct Hf as [-> ->]. split; [apply prefix_nil | done].
  - rewrite Hf. split; [done|]. cbn [length]. rewrite length_fmap. lia.
  - rewrite Hf. split; [done|]. cbn [length]. rewrite length_fmap. lia.
  - rewrite Hf. split; [done|]. cbn [length]. rewrite length_fmap. lia.
  - destruct Hf as (before & -> & ->). split.
    + rewrite fmap_app. by exists (data_event <$> [line]).
    + cbn [length]. rewrite length_app, length_fmap. cbn [length]. lia.
Qed.

(** ** A pump running by itself *)

Lemma pump_step_read s i t line chunk :
  threads s !! i = Some t -> pump_at t = AtReadline -> line ≠ [] ->
  decode_replace line = inr chunk ->
  pump i line s
  = with_threads
      <[i := set_pump t (AtPut chunk) (lines_read t ++ [line]) (delivered t) (appended t)]> s.
Proof.
  intros Hi Hpc Hline Hc. unfold pump. rewrite Hi, Hpc.
  destruct line; [done|]. by rewrite Hc.
Qed.

Lemma pump_step_put s i t d line :
  threads s !! i = Some t -> pump_at t = AtPut d ->
  pump i line s
  = with_threads
      <[i := set_pump t (AtAppend d) (lines_read t) (delivered t ++ [d]) (appended t)]>
      (queue_put (q_ t) d s).
Proof. intros Hi Hpc. unfold pump. by rewrite Hi, Hpc. Qed.

Lemma pump_step_append s i t d line :
  threads s !! i = Some t -> pump_at t = AtAppend d ->
  pump i line s
  = with_threads
      <[i := set_pump t AtReadline (lines_read t) (delivered t) (appended t ++ [d])]>
      (append_output (prog t) d s).
Proof. intros Hi Hpc. unfold pump. by rewrite Hi, Hpc. Qed.

Lemma threads_insert_lookup s i t0 t :
  threads s !! i = Some t0 -> threads (with_threads <[i := t]> s) !! i = Some t.
Proof.
  intros Hi. cbn [threads with_threads].
  apply list_lookup_insert_eq. by eapply lookup_lt_Some.
Qed.

(** One turn of the loop body on a non-empty line: the decoded chunk
    lands on the pump's queue and in the replay buffer of its program,
    and the pump is back at [readline]. *)
Lemma pump_iteration s i t line :
  threads s !! i = Some t -> pump_at t = AtReadline -> line ≠ [] ->
  (q_ t < length (queue_heap s))%nat ->
  ∃ chunk t',
    decode_replace line = inr chunk
    ∧ let s' := exec [PumpStep i line; PumpStep i []; PumpStep i []] s in
      threads s' !! i = Some t'
      ∧ pump_at t' = AtReadline ∧ q_ t' = q_ t ∧ prog t' = prog t
      ∧ length (queue_heap s') = length (queue_heap s)
      ∧ queue_items s' (q_ t) = queue_items s (q_ t) ++ [chunk]
      ∧ read_output s' (prog t) = read_output s (prog t) ++ chunk.
Proof.
  intros Hi Hpc Hline Hq.
  destruct (decode_replace_total line) as [chunk Hc].
  exists chunk. eexists. split; [exact Hc|].
  cbn [exec fold_left step].
  rewrite (pump_step_read s i t line chunk Hi Hpc Hline Hc).
  set (t1 := set_pump t (AtPut chunk) _ _ _).
  set (s1 := with_threads <[i := t1]> s).
  assert (threads s1 !! i = Some t1) as Hi1 by by eapply threads_insert_lookup.
  rewrite (pump_step_put s1 i t1 chunk [] Hi1 eq_refl).
  set (t2 := set_pump t1 (AtAppend chunk) _ _ _).
  set (s2 := with_threads <[i := t2]> _).
  assert (threads s2 !! i = Some t2) as Hi2
    by (eapply threads_insert_lookup; exact Hi1).
  rewrite (pump_step_append s2 i t2 chunk [] Hi2 eq_refl).
  split; [eapply threads_insert_lookup; exact Hi2|].
  cbn [pump_at q_ prog set_pump t1 t2].
  split; [done|]. split; [done|]. split; [done|]. split; [|split].
  - subst s2 s1.
    cbn [queue_heap with_heap with_threads append_output with_output queue_put].
    by rewrite length_insert.
  - unfold queue_items at 1. subst s2 s1.
    cbn [queue_heap with_heap with_threads append_output with_output queue_put].
    by rewrite list_lookup_insert_eq.
  - unfold read_output. subst s2 s1 t2 t1.
    cbn [last_output with_heap with_threads append_output with_output queue_put
         prog set_pump].
    rewrite lookup_insert_eq. reflexivity.
Qed.

Lemma pump_alone_cons i line lines s :
  exec (pump_alone i (line :: lines)) s
  = exec (pump_alone i lines)
      (exec [PumpStep i line; PumpStep i []; PumpStep i []] s).
Proof. reflexivity. Qed.

Lemma pump_alone_run i lines : ∀ s t,
  threads s !! i = Some t -> pump_at t = AtReadline ->
  (q_ t < length (queue_heap s))%nat ->
  Forall (λ l, l ≠ []) lines ->
  ∃ chunks t',
    decodes lines chunks
    ∧ let s' := exec (pump_alone i lines) s in
      threads s' !! i = Some t'
      ∧ pump_at t' = AtReadline
      ∧ queue_items s' (q_ t) = queue_items s (q_ t) ++ chunks
      ∧ read_output s' (prog t) = read_output s (prog t) ++ concat chunks.
Proof.
  induction lines as [|line lines IH]; intros s t Hi Hpc Hq Hne.
  - exists [], t. split; [constructor|]. cbn. by rewrite !app_nil_r.
  - apply Forall_cons in Hne as [Hline Hne].
    destruct (pump_iteration s i t line Hi Hpc Hline Hq)
      as (chunk & t1 & Hc & Hi1 & Hpc1 & Hq1 & Hprog1 & Hlen1 & Hqueue1 & Hout1).
    destruct (IH _ t1 Hi1 Hpc1) as (chunks & t' & Hcs & Hi' & Hpc' & Hqueue' & Hout');
      [rewrite Hq1, Hlen1; exact Hq | exact Hne |].
    exists (chunk :: chunks), t'. split; [by constructor|].
    rewrite pump_alone_cons. cbv zeta in *.
    rewrite Hq1, Hqueue1 in Hqueue'. rewrite Hprog1, Hout1 in Hout'.
    rewrite Hqueue', Hout', <- !app_assoc. done.
Qed.



(** A malformed byte followed by text: the marker, then the text. *)
Example malformed_line_decoded :
  decode_replace (Byte.xff :: out_line "ok")
  = inr (replacement_marker :: lit "ok" ++ nl).
Proof. reflexivity. Qed.

(** C2 at the failing schedule: two runs of program 7, then the
    stdout pump of the first process reads a line.  The chunk goes to
    the first run's queue, which the pump holds, but also into
    [last_output["7"]], which by then belongs to the second run. *)
Lemma superseded_pump_writes_new_buffer :
  let db := single_block 7 (Some (lit "pass")) in
  let s := exec ([PostRun db (Some (lit "7")) calm; PostRun db (Some (lit "7")) calm]
                 ++ pump_alone 0 [out_line "old"]) initial in
  (pipe <$> threads s !! 0%nat) = Some (0%nat, Stdout)
  ∧ running_processes s !! lit "7" = Some 1%nat
  ∧ output_queues s !! lit "7" = Some 1%nat
  ∧ queue_items s 0 = [lit "old" ++ nl]
  ∧ queue_items s 1 = []
  ∧ last_output s !! lit "7" = Some (lit "old" ++ nl).
Proof. vm_compute. repeat split; reflexivity. Qed.

(** ** The idle stream *)

Lemma yielded_insert (gs : list generator) j g g' :
  gs !! j = Some g -> yielded g' = yielded g ->
  yielded <$> <[j := g']> gs = yielded <$> gs.
Proof.
  intros Hj Hy. rewrite list_fmap_insert, Hy.
  apply list_insert_id. by rewrite list_lookup_fmap, Hj.
Qed.

Lemma idle_step j s :
  idle_at j s ->
  idle_at j (event_stream j s)
  ∧ yielded <$> responses (event_stream j s) = yielded <$> responses s
  ∧ queue_heap (event_stream j s) = queue_heap s.
Proof.
  intros (g & Hj & Hpc & Hq). unfold event_stream. rewrite Hj.
  pose proof (lookup_lt_Some _ _ _ Hj) as Hlen.
  destruct Hpc as [Hpc | Hpc]; rewrite Hpc;
    destruct Hq as [Hq | (r & Hq & Hr)]; rewrite Hq; rewrite ?Hr.
  - split; [|done]. exists g. split; [done|]. split; [by left | by left].
  - cbn [responses with_responses queue_heap].
    split; [|split; [by apply (yielded_insert _ _ g) | done]].
    eexists. split; [by apply list_lookup_insert_eq|].
    split; [by right|]. right. exists r. by split.
  - split; [|done]. exists g. split; [done|]. split; [by right | by left].
  - cbn [responses with_responses queue_heap].
    split; [|split; [by apply (yielded_insert _ _ g) | done]].
    eexists. split; [by apply list_lookup_insert_eq|].
    split; [by left|]. right. exists r. by split.
Qed.

(** C4 (as the code has it).  A generator that is polling and finds
    nothing to take stays so, however often it is stepped: each poll
    sleeps and yields nothing, so what every response has received and
    what every queue holds are unchanged.  No keep-alive is sent. *)
Theorem idle_stream_is_silent j n : ∀ s,
  idle_at j s ->
  let s' := exec (replicate n (StreamStep j)) s in
  idle_at j s'
  ∧ yielded <$> responses s' = yielded <$> responses s
  ∧ queue_heap s' = queue_heap s.
Proof.
  induction n as [|n IH]; intros s Hidle; [done|].
  cbn [replicate exec fold_left step].
  destruct (idle_step j s Hidle) as (Hidle1 & Hy1 & Hh1).
  destruct (IH _ Hidle1) as (Hidle' & Hy' & Hh').
  split; [exact Hidle'|]. split; [by rewrite <- Hy1 | by rewrite <- Hh1].
Qed.

Lemma idle_stream_is_silent_witness :
  yielded <$> responses
    (exec (replicate 20 (StreamStep 0))
       (exec [GetStream (lit "7"); StreamStep 0] initial))
  = [[retry_directive]].
Proof.
  refine (proj1 (proj2 (idle_stream_is_silent 0 20
            (exec [GetStream (lit "7"); StreamStep 0] initial) _))).
  eexists. split; [reflexivity|]. split; [by left | by left].
Defined.

(** C4, refuted as stated: program 7 is running and silent, a viewer
    is connected to its queue; one hundred polls later the response
    still consists of the initial directive alone. *)
Lemma no_keep_alive_on_idle_channel :
  let db := single_block 7 (Some (lit "pass")) in
  let s := exec ([PostRun db (Some (lit "7")) calm; GetStream (lit "7")]
                 ++ replicate 100 (StreamStep 0)) initial in
  (gen_q <$> responses s) = [Some 0%nat]
  ∧ queue_items s 0 = []
  ∧ (yielded <$> responses s) = [[retry_directive]].
Proof. vm_compute. repeat split; reflexivity. Qed.

(** The "hello" scenario end to end: program 42 prints one line; a
    viewer connected before the line arrives receives it as one event,
    and the page shows it afterwards. *)
Example hello_scenario :
  let db := single_block 42 (Some (lit "print('hello')")) in
  let s := exec ([PostRun db (Some (lit "42")) calm; GetStream (lit "42");
                  StreamStep 0; StreamStep 0; StreamStep 0]
                 ++ pump_alone 0 [out_line "hello"]
                 ++ replicate 4 (StreamStep 0)) initial in
  (yielded <$> responses s)
  = [[retry_directive; lit "data: hello" ++ nl ++ nl ++ nl]]
  ∧ output_text (index db (Some (lit "42")) s) = lit "hello" ++ nl.
Proof. vm_compute. split; reflexivity. Qed.

(* ================================================================= *)
(** * Further properties *)

(** ** The listing and the source lookup *)

Lemma lit_inj a b : lit a = lit b -> a = b.
Proof.
  unfold lit. intros H.
  rewrite <- (string_of_list_ascii_of_string a), <- (string_of_list_ascii_of_string b).
  f_equal. revert H.
  generalize (list_ascii_of_string a) (list_ascii_of_string b).
  induction l as [|x l IH]; intros [|y l']; cbn [map]; try done.
  intros [= Hxy Hl]. f_equal; [|by apply IH].
  by rewrite <- (ascii_N_embedding x), <- (ascii_N_embedding y), Hxy.
Qed.

Lemma to_int_not_nil z :
  Z.to_int z ≠ Decimal.Pos Decimal.Nil ∧ Z.to_int z ≠ Decimal.Neg Decimal.Nil.
Proof.
  destruct z as [|p|p]; cbn; split; try done;
    intros [= H]; by apply (DecimalPos.Unsigned.to_uint_nonnil p).
Qed.

Lemma py_str_inj z z' : py_str z = py_str z' -> z = z'.
Proof.
  unfold py_str. intros H%lit_inj.
  apply DecimalZ.to_int_inj.
  destruct (to_int_not_nil z) as [Hp Hn], (to_int_not_nil z') as [Hp' Hn'].
  pose proof (NilZero.isi _ Hp Hn) as E. rewrite H, (NilZero.isi _ Hp' Hn') in E.
  by injection E.
Qed.

Lemma string_of_uint_digits d :
  Forall is_numeral_char (lit (NilEmpty.string_of_uint d)).
Proof.
  induction d; cbn; constructor; try done; left; cbn; lia.
Qed.

Lemma py_str_numeral z : py_str z ≠ [] ∧ Forall is_numeral_char (py_str z).
Proof.
  unfold py_str.
  assert (∀ d, lit (NilZero.string_of_uint d) ≠ []
               ∧ Forall is_numeral_char (lit (NilZero.string_of_uint d))) as Hu.
  { intros d. split.
    - destruct d; discriminate.
    - destruct d; [constructor; [left; cbn; lia | constructor]|..];
        apply (string_of_uint_digits (_ d)). }
  destruct (Z.to_int z) as [d|d]; cbn [NilZero.string_of_int].
  - apply Hu.
  - split; [discriminate|]. change (lit (String "-" ?s)) with (45%N :: lit s).
    constructor; [by right | apply Hu].
Qed.

#[local] Instance py_str_injective : Inj (=) (=) py_str.
Proof. intros z z'. apply py_str_inj. Qed.

Lemma merge_sort_head {A} (R : relation A) `{!RelDecision R}
    `{!Transitive R} `{!Total R} (l : list A) x rest :
  merge_sort R l = x :: rest ->
  x ∈ l ∧ ∀ y, y ∈ l -> y = x ∨ R x y.
Proof.
  intros Hm.
  pose proof (StronglySorted_merge_sort R l) as Hs.
  pose proof (merge_sort_Permutation R l) as Hp.
  rewrite Hm in Hs, Hp. split.
  - rewrite <- Hp. apply list_elem_of_here.
  - intros y Hy. rewrite <- Hp in Hy.
    apply elem_of_cons in Hy as [->|Hy]; [by left|right].
    apply StronglySorted_inv in Hs as [_ Hall].
    rewrite Forall_forall in Hall. by apply Hall.
Qed.

Lemma strictly_sorted (l : list Z) :
  StronglySorted Z.le l -> NoDup l -> StronglySorted Z.lt l.
Proof.
  induction 1 as [|x l Hs IH Hall]; intros Hnd; [constructor|].
  apply NoDup_cons in Hnd as [Hx Hnd]. constructor; [by apply IH|].
  rewrite Forall_forall in Hall |- *. intros y Hy.
  assert (x ≠ y) by (by intros ->). specialize (Hall y Hy). lia.
Qed.

Lemma distinct_block_indexes_NoDup db : NoDup (distinct_block_indexes db).
Proof.
  unfold distinct_block_indexes. rewrite merge_sort_Permutation.
  apply NoDup_remove_dups.
Qed.

Lemma get_programs_elem db p :
  p ∈ get_programs db
  <-> ∃ row, row ∈ runnable_blocks db ∧ p = py_str (block_index row).
Proof.
  unfold get_programs. rewrite list_elem_of_fmap. split.
  - intros (k & -> & Hk). apply distinct_block_indexes_elem in Hk.
    apply list_elem_of_fmap in Hk as (row & -> & Hrow). by exists row.
  - intros (row & Hrow & ->). exists (block_index row). split; [done|].
    apply distinct_block_indexes_elem. by apply list_elem_of_fmap_2.
Qed.

(** X1.  The listing holds each identifier once, in strictly
    ascending order of [block_index], and holds exactly the printed
    indexes of the rows of [runnable_blocks]. *)
Theorem get_programs_sorted_distinct db :
  NoDup (get_programs db)
  ∧ (∃ ks, get_programs db = py_str <$> ks ∧ StronglySorted Z.lt ks)
  ∧ (∀ p, p ∈ get_programs db
          <-> ∃ row, row ∈ runnable_blocks db ∧ p = py_str (block_index row)).
Proof.
  split; [|split].
  - apply (NoDup_fmap_2 py_str), distinct_block_indexes_NoDup.
  - exists (distinct_block_indexes db). split; [done|].
    apply strictly_sorted; [|apply distinct_block_indexes_NoDup].
    apply (StronglySorted_merge_sort Z.le).
  - apply get_programs_elem.
Qed.

#[local] Instance newer_first_trans : Transitive newer_first.
Proof. unfold newer_first. intros a b c ? ?. lia. Qed.

#[local] Instance newer_first_total : Total newer_first.
Proof. unfold newer_first. intros a b. lia. Qed.

(** X2.  For a listed identifier the source lookup returns the
    [cleaned_content] of a row of that identifier whose [created_at]
    no other row of the identifier exceeds, so it returns [None]
    exactly when that content is NULL. *)
Theorem get_program_code_newest db p :
  p ∈ get_programs db ->
  ∃ row, row ∈ runnable_blocks db
         ∧ py_str (block_index row) = p
         ∧ get_program_code db p = cleaned_content row
         ∧ ∀ other, other ∈ runnable_blocks db ->
             py_str (block_index other) = p ->
             block_created_at other ≤ block_created_at row.
Proof.
  unfold get_program_code, newest.
  intros (row0 & Hrow0 & ->)%get_programs_elem.
  destruct (merge_sort newer_first _) as [|row rest] eqn:Hm.
  - pose proof (merge_sort_Permutation newer_first
                  (filter (λ r, py_str (block_index r)
                                = py_str (block_index row0))
                     (runnable_blocks db))) as Hp.
    rewrite Hm in Hp. symmetry in Hp. apply Permutation_nil_r in Hp.
    assert (row0 ∈ filter (λ r, py_str (block_index r)
                                = py_str (block_index row0))
                     (runnable_blocks db)) as Hin
      by (by apply list_elem_of_filter).
    rewrite Hp in Hin. by apply not_elem_of_nil in Hin.
  - pose proof (merge_sort_head newer_first _ _ _ Hm) as [Hin Hmax].
    apply list_elem_of_filter in Hin as [Hidx Hin].
    exists row. split; [done|]. split; [done|]. split; [done|].
    intros other Hother Hoidx.
    assert (other ∈ filter (λ r, py_str (block_index r)
                                 = py_str (block_index row0))
                      (runnable_blocks db)) as Ho
      by (by apply list_elem_of_filter).
    destruct (Hmax other Ho) as [->|Hle]; [lia | exact Hle].
Qed.

Lemma get_program_code_newest_witness :
  ∃ row, row ∈ runnable_blocks (single_block 7 (Some (lit "pass")))
         ∧ get_program_code (single_block 7 (Some (lit "pass"))) (lit "7")
           = cleaned_content row.
Proof.
  destruct (get_program_code_newest (single_block 7 (Some (lit "pass")))
              (lit "7"))
    as (row & Hrow & _ & Hcode & _).
  - vm_compute. apply list_elem_of_here.
  - exists row. split; [exact Hrow | exact Hcode].
Defined.

(** ** Listed identifiers and normalisation *)

Lemma endswith_elem n suf c : endswith n suf = true -> c ∈ suf -> c ∈ n.
Proof.
  unfold endswith. intros [_ Hd%bool_decide_eq_true]%andb_true_iff Hc.
  rewrite <- Hd in Hc. apply list_elem_of_lookup in Hc as [i Hi].
  rewrite lookup_drop in Hi. by eapply list_elem_of_lookup_2.
Qed.

Lemma safe_program_name_plain n :
  n ≠ [] -> slash ∉ n -> backslash ∉ n -> endswith n dot_py = false ->
  safe_program_name (Some n) = Some n.
Proof.
  intros Hne Hs Hb He. destruct n as [|c n]; [done|].
  cbn [safe_program_name]. rewrite (basename_plain _ Hs).
  unfold strip_py. rewrite He. unfold contains.
  by rewrite !bool_decide_eq_false_2.
Qed.

Lemma numeral_not (c : N) n :
  Forall is_numeral_char n -> ¬ is_numeral_char c -> c ∉ n.
Proof.
  intros Hall Hc Hin. rewrite Forall_forall in Hall. by apply Hc, Hall.
Qed.

Lemma listed_plain db p :
  p ∈ get_programs db ->
  p ≠ [] ∧ Forall is_numeral_char p ∧ safe_program_name (Some p) = Some p.
Proof.
  intros (row & _ & ->)%get_programs_elem.
  destruct (py_str_numeral (block_index row)) as [Hne Hnum].
  split; [done|]. split; [done|].
  apply safe_program_name_plain; [done|..].
  - apply (numeral_not _ _ Hnum). unfold is_numeral_char, slash. lia.
  - apply (numeral_not _ _ Hnum). unfold is_numeral_char, backslash. lia.
  - destruct (endswith _ dot_py) eqn:He; [|done]. exfalso.
    assert (121%N ∈ py_str (block_index row)) as Hy.
    { eapply endswith_elem; [exact He|]. vm_compute.
      do 2 apply list_elem_of_further. apply list_elem_of_here. }
    revert Hy. apply (numeral_not _ _ Hnum). unfold is_numeral_char. lia.
Qed.

(** The handlers' test [program and program in programs]. *)
Lemma gate_true (o : option (list N)) programs :
  truthy o && negb (not_in o programs) = true ->
  ∃ p, o = Some p ∧ p ≠ [] ∧ p ∈ programs.
Proof.
  intros [Ht Hn]%andb_true_iff. destruct o as [[|c p]|]; try done.
  exists (c :: p). split; [done|]. split; [done|].
  cbn [not_in] in Hn. rewrite negb_involutive in Hn.
  by apply bool_decide_eq_true in Hn.
Qed.

Lemma gate_listed db p :
  p ∈ get_programs db ->
  truthy (Some p) && negb (not_in (Some p) (get_programs db)) = true.
Proof.
  intros Hin. destruct (listed_plain db p Hin) as (Hne & _ & _).
  destruct p; [done|]. cbn [truthy not_in andb].
  by rewrite bool_decide_eq_true_2.
Qed.

(** X3.  Normalisation returns every listed identifier unchanged, so
    a program can always be addressed by the name the listing shows. *)
Theorem listed_identifier_survives_normalisation db p :
  p ∈ get_programs db ->
  safe_program_name (Some p) = Some p
  ∧ truthy (safe_program_name (Some p)) = true
  ∧ not_in (safe_program_name (Some p)) (get_programs db) = false.
Proof.
  intros Hin. destruct (listed_plain db p Hin) as (Hne & _ & Hsafe).
  rewrite Hsafe. split; [done|]. split.
  - by destruct p.
  - cbn [not_in]. by rewrite bool_decide_eq_true_2.
Qed.

Lemma listed_identifier_survives_normalisation_witness :
  safe_program_name (Some (lit "7")) = Some (lit "7").
Proof.
  refine (proj1 (listed_identifier_survives_normalisation
                   (single_block 7 (Some (lit "pass"))) (lit "7") _)).
  vm_compute. apply list_elem_of_here.
Defined.

(** ** Reactions and comments through their handlers *)

Lemma numeral_adaptable p : Forall is_numeral_char p -> adaptable p = true.
Proof.
  unfold adaptable. intros Hall. apply forallb_forall. intros c Hc%list_elem_of_In.
  rewrite Forall_forall in Hall. specialize (Hall c Hc).
  unfold is_numeral_char in Hall.
  apply andb_true_iff. split; [apply andb_true_iff; split|].
  - apply negb_true_iff, N.eqb_neq. lia.
  - apply N.leb_le. lia.
  - apply negb_true_iff, andb_false_iff. left. apply N.leb_gt. lia.
Qed.

Lemma get_reactions_insert db k k' row :
  get_reactions (set_reactions db (<[k := row]> (program_reactions db))) k'
  = if decide (k = k') then row else get_reactions db k'.
Proof.
  unfold get_reactions. cbn [program_reactions set_reactions].
  rewrite lookup_insert. by destruct (decide (k = k')).
Qed.

(** X4.  [POST /like] and [POST /dislike], in full.  When the handler
    returns, it redirects to the normalised identifier, leaves the
    blocks, the comments and the other counter of every program alone,
    and has raised the one counter by exactly 1 for the named program
    if that program is listed, and for no other.  It raises only when
    the named program is listed and its counter stands at the
    [INTEGER] maximum. *)
Theorem reaction_handlers db form :
  match like_program form db with
  | inr (db', r) =>
      r = Redirect (safe_program_name form)
      ∧ runnable_blocks db' = runnable_blocks db
      ∧ program_comments db' = program_comments db
      ∧ ∀ k, (get_reactions db' k).2 = (get_reactions db k).2
             ∧ (get_reactions db' k).1
               = if decide (safe_program_name form = Some k ∧ k ∈ get_programs db)
                 then (get_reactions db k).1 + 1
                 else (get_reactions db k).1
  | inl e =>
      e = NumericValueOutOfRange
      ∧ ∃ p, safe_program_name form = Some p ∧ p ∈ get_programs db
             ∧ int4_max ≤ (get_reactions db p).1
  end
  ∧ match dislike_program form db with
    | inr (db', r) =>
        r = Redirect (safe_program_name form)
        ∧ runnable_blocks db' = runnable_blocks db
        ∧ program_comments db' = program_comments db
        ∧ ∀ k, (get_reactions db' k).1 = (get_reactions db k).1
               ∧ (get_reactions db' k).2
                 = if decide (safe_program_name form = Some k ∧ k ∈ get_programs db)
                   then (get_reactions db k).2 + 1
                   else (get_reactions db k).2
    | inl e =>
        e = NumericValueOutOfRange
        ∧ ∃ p, safe_program_name form = Some p ∧ p ∈ get_programs db
               ∧ int4_max ≤ (get_reactions db p).2
    end.
Proof.
  unfold like_program, dislike_program.
  destruct (truthy (safe_program_name form)
            && negb (not_in (safe_program_name form) (get_programs db))) eqn:Hg.
  - apply gate_true in Hg as (p & Hp & Hne & Hin). rewrite Hp.
    cbn [from_option id]. unfold increment_like, increment_dislike.
    destruct (listed_plain db p Hin) as (_ & Hnum & _).
    rewrite (numeral_adaptable p Hnum). cbn [negb].
    split.
    + destruct (program_reactions db !! p) as [[likes dislikes]|] eqn:Hrow.
      * destruct (likes + 1 <=? int4_max) eqn:Hb.
        -- split; [done|]. split; [done|]. split; [done|]. intros k.
           rewrite get_reactions_insert. unfold get_reactions at 2 4.
           destruct (decide (p = k)) as [<-|Hk].
           ++ rewrite Hrow, decide_True by done. done.
           ++ rewrite decide_False by (intros [[= ?] _]; done). done.
        -- split; [done|]. exists p. split; [done|]. split; [done|].
           unfold get_reactions. rewrite Hrow. cbn. apply Z.leb_gt in Hb. lia.
      * split; [done|]. split; [done|]. split; [done|]. intros k.
        rewrite get_reactions_insert. unfold get_reactions at 2 4.
        destruct (decide (p = k)) as [<-|Hk].
        -- rewrite Hrow, decide_True by done. done.
        -- rewrite decide_False by (intros [[= ?] _]; done). done.
    + destruct (program_reactions db !! p) as [[likes dislikes]|] eqn:Hrow.
      * destruct (dislikes + 1 <=? int4_max) eqn:Hb.
        -- split; [done|]. split; [done|]. split; [done|]. intros k.
           rewrite get_reactions_insert. unfold get_reactions at 2 4.
           destruct (decide (p = k)) as [<-|Hk].
           ++ rewrite Hrow, decide_True by done. done.
           ++ rewrite decide_False by (intros [[= ?] _]; done). done.
        -- split; [done|]. exists p. split; [done|]. split; [done|].
           unfold get_reactions. rewrite Hrow. cbn. apply Z.leb_gt in Hb. lia.
      * split; [done|]. split; [done|]. split; [done|]. intros k.
        rewrite get_reactions_insert. unfold get_reactions at 2 4.
        destruct (decide (p = k)) as [<-|Hk].
        -- rewrite Hrow, decide_True by done. done.
        -- rewrite decide_False by (intros [[= ?] _]; done). done.
  - assert (∀ k, ¬ (safe_program_name form = Some k ∧ k ∈ get_programs db)) as Hno.
    { intros k [Hk Hin]. rewrite Hk, gate_listed in Hg by done. done. }
    split; (split; [done|]; split; [done|]; split; [done|]; intros k;
            by rewrite decide_False by apply Hno).
Qed.

Lemma lstrip_split s :
  ∃ a, s = a ++ lstrip s
       ∧ Forall (λ c, is_space c = true) a
       ∧ ∀ c r, lstrip s = c :: r -> is_space c = false.
Proof.
  induction s as [|c s (a & Hs & Ha & Hhead)]; [by exists []|].
  cbn [lstrip]. destruct (is_space c) eqn:Hc.
  - exists (c :: a). split; [by rewrite Hs at 1|]. split; [by constructor|done].
  - exists []. split; [done|]. split; [constructor|]. by intros ? ? [= <- _].
Qed.

Lemma rstrip_split s :
  ∃ b, s = rstrip s ++ b
       ∧ Forall (λ c, is_space c = true) b
       ∧ ∀ c, last (rstrip s) = Some c -> is_space c = false.
Proof.
  unfold rstrip. destruct (lstrip_split (reverse s)) as (a & Hs & Ha & Hhead).
  exists (reverse a). split; [|split].
  - rewrite <- reverse_app, <- Hs. by rewrite reverse_involutive.
  - by apply Forall_reverse.
  - intros c Hc. rewrite last_reverse in Hc.
    destruct (lstrip (reverse s)) as [|c' r] eqn:E; [done|].
    injection Hc as <-. by eapply Hhead.
Qed.

Lemma strip_split s :
  ∃ a b, s = a ++ strip s ++ b
         ∧ Forall (λ c, is_space c = true) a
         ∧ Forall (λ c, is_space c = true) b
         ∧ (∀ c, head (strip s) = Some c -> is_space c = false)
         ∧ (∀ c, last (strip s) = Some c -> is_space c = false).
Proof.
  unfold strip. destruct (lstrip_split s) as (a & Hs & Ha & Hhead).
  destruct (rstrip_split (lstrip s)) as (b & Ht & Hb & Hlast).
  exists a, b. split; [by rewrite <- Ht|]. split; [done|]. split; [done|].
  split; [|done]. intros c Hc.
  destruct (rstrip (lstrip s)) as [|c' r] eqn:E; [done|]. injection Hc as ->.
  rewrite Ht in Hhead. by eapply Hhead.
Qed.

Lemma strip_blank s : strip s = [] <-> Forall (λ c, is_space c = true) s.
Proof.
  destruct (strip_split s) as (a & b & Hs & Ha & Hb & Hhead & _). split.
  - intros E. rewrite E in Hs. rewrite Hs. by apply Forall_app.
  - intros Hall. destruct (strip s) as [|c r] eqn:E; [done|]. exfalso.
    assert (is_space c = false) as Hc by by apply Hhead.
    rewrite Hs in Hall. apply Forall_app in Hall as [_ Hall].
    apply Forall_app in Hall as [Hall _]. apply Forall_cons in Hall as [Hc' _].
    congruence.
Qed.

Lemma get_programs_blocks db db' :
  runnable_blocks db' = runnable_blocks db -> get_programs db' = get_programs db.
Proof. unfold get_programs, distinct_block_indexes. by intros ->. Qed.

(** X5.  [POST /comment].  The comment is stored without the
    whitespace around it; a missing, empty or all-whitespace comment,
    or one for an unlisted program, changes nothing.  Otherwise, if
    the driver accepts the text, it joins the comments of that program
    and of no other, and reactions and blocks are untouched; if the
    driver refuses it, the handler raises. *)
Theorem add_comment_effect now form_program form_comment db :
  let program := safe_program_name form_program in
  let text := strip (default [] form_comment) in
  (∃ a b, default [] form_comment = a ++ text ++ b
          ∧ Forall (λ c, is_space c = true) a
          ∧ Forall (λ c, is_space c = true) b
          ∧ (∀ c, head text = Some c -> is_space c = false)
          ∧ (∀ c, last text = Some c -> is_space c = false))
  ∧ (Forall (λ c, is_space c = true) (default [] form_comment)
     ∨ truthy program = false
     ∨ not_in program (get_programs db) = true ->
     add_comment now form_program form_comment db = inr (db, Redirect program))
  ∧ (∀ p, program = Some p -> p ∈ get_programs db -> text ≠ [] ->
       if adaptable text
       then ∃ db',
           add_comment now form_program form_comment db
           = inr (db', Redirect (Some p))
           ∧ get_program_comments db' p ≡ₚ text :: get_program_comments db p
           ∧ (∀ q, q ≠ p -> get_program_comments db' q = get_program_comments db q)
           ∧ runnable_blocks db' = runnable_blocks db
           ∧ program_reactions db' = program_reactions db
       else add_comment now form_program form_comment db = inl NotAdaptable).
Proof.
  intros program text. subst program text.
  split; [apply strip_split|]. split.
  - intros H. unfold add_comment.
    destruct H as [H%strip_blank|[H|H]].
    + rewrite H. cbn [truthy]. by rewrite andb_false_r.
    + by rewrite H.
    + rewrite H. cbn [negb]. by rewrite andb_false_r.
  - intros p Hp Hin Htext. unfold add_comment. rewrite Hp.
    rewrite (gate_listed db p Hin). cbn [from_option id andb].
    destruct (strip (default [] form_comment)) as [|c text] eqn:E; [done|].
    cbn [truthy]. unfold add_program_comment.
    destruct (listed_plain db p Hin) as (_ & Hnum & _).
    rewrite (numeral_adaptable p Hnum). cbn [andb].
    destruct (adaptable (c :: text)); [|done].
    eexists. split; [reflexivity|].
    unfold get_program_comments. cbn [program_comments set_comments
      runnable_blocks program_reactions].
    split; [|split; [|done]].
    + rewrite filter_app, filter_cons_True, filter_nil by done.
      rewrite !merge_sort_Permutation, fmap_app. cbn [fmap list_fmap comment_text].
      by rewrite Permutation_app_comm.
    + intros q Hq. rewrite filter_app, filter_cons_False, filter_nil by done.
      by rewrite app_nil_r.
Qed.

Lemma add_comment_effect_witness :
  add_comment 5 (Some (lit "7")) (Some (lit "   "))
    (single_block 7 (Some (lit "pass")))
  = inr (single_block 7 (Some (lit "pass")), Redirect (Some (lit "7"))).
Proof.
  refine (proj1 (proj2 (add_comment_effect 5 (Some (lit "7")) (Some (lit "   "))
                          (single_block 7 (Some (lit "pass"))))) _).
  left. repeat constructor.
Defined.

(** X6.  A like followed by the redirect it answers with: for a listed
    program below the [INTEGER] maximum, the page then shows that
    program with its like count one higher and with the same dislike
    count, output and comments as before. *)
Theorem like_then_index db form s p :
  safe_program_name form = Some p -> p ∈ get_programs db ->
  (get_reactions db p).1 < int4_max ->
  ∃ db',
    like_program form db = inr (db', Redirect (Some p))
    ∧ selected_program (index db' (Some p) s) = Some p
    ∧ selected_program (index db (Some p) s) = Some p
    ∧ like_count (index db' (Some p) s) = like_count (index db (Some p) s) + 1
    ∧ dislike_count (index db' (Some p) s) = dislike_count (index db (Some p) s)
    ∧ output_text (index db' (Some p) s) = output_text (index db (Some p) s)
    ∧ comments (index db' (Some p) s) = comments (index db (Some p) s)
    ∧ page_programs (index db' (Some p) s) = page_programs (index db (Some p) s).
Proof.
  intros Hp Hin Hlt.
  destruct (listed_plain db p Hin) as (Hne & _ & Hsafe).
  assert (∀ d, get_programs d = get_programs db ->
               select_program (get_programs d) (Some p) = Some p) as Hsel.
  { intros d ->. unfold select_program.
    destruct (get_programs db) as [|first rest] eqn:E; [by apply not_elem_of_nil in Hin|].
    cbn [not_in]. by rewrite bool_decide_eq_true_2. }
  unfold like_program. rewrite Hp, (gate_listed db p Hin). cbn [from_option id].
  unfold increment_like, get_reactions in *.
  destruct (listed_plain db p Hin) as (_ & Hnum & _).
  rewrite (numeral_adaptable p Hnum). cbn [negb].
  assert (truthy (Some p) = true) as Ht by by destruct p.
  destruct (program_reactions db !! p) as [[likes dislikes]|] eqn:Hrow;
    cbn [fst snd] in Hlt.
  - rewrite (proj2 (Z.leb_le _ _)) by lia. eexists. split; [reflexivity|].
    unfold index. cbn [selected_program like_count dislike_count output_text
      comments page_programs].
    rewrite Hsafe, !Hsel by done. rewrite Ht. cbn [from_option id].
    unfold get_reactions, get_program_comments.
    cbn [program_reactions set_reactions program_comments].
    rewrite lookup_insert_eq, Hrow. done.
  - eexists. split; [reflexivity|].
    unfold index. cbn [selected_program like_count dislike_count output_text
      comments page_programs].
    rewrite Hsafe, !Hsel by done. rewrite Ht. cbn [from_option id].
    unfold get_reactions, get_program_comments.
    cbn [program_reactions set_reactions program_comments].
    rewrite lookup_insert_eq, Hrow. done.
Qed.

Lemma like_then_index_witness :
  ∃ db',
    like_program (Some (lit "7.py")) (single_block 7 (Some (lit "pass")))
    = inr (db', Redirect (Some (lit "7")))
    ∧ like_count (index db' (Some (lit "7")) initial) = 1.
Proof.
  destruct (like_then_index (single_block 7 (Some (lit "pass")))
              (Some (lit "7.py")) initial (lit "7"))
    as (db' & Hlike & _ & _ & Hcount & _).
  - reflexivity.
  - vm_compute. apply list_elem_of_here.
  - vm_compute. reflexivity.
  - exists db'. split; [exact Hlike | exact Hcount].
Defined.

(** ** The state after a run request *)

(** Every run request either leaves the dictionaries, the heap and the
    threads alone, or resets the identifier's queue and buffer, and in
    the latter case may go on to launch. *)
Lemma run_program_fields db form env s :
  ∃ (key : list N) (reset launched : bool),
    let s' := (run_program db form env s).1 in
    let q := length (queue_heap s) in
    let p := spawned s in
    (launched = true -> reset = true)
    ∧ responses s' = responses s
    ∧ queue_heap s' = (if reset then queue_heap s ++ [[]] else queue_heap s)
    ∧ output_queues s'
      = (if reset then <[key := q]> (output_queues s) else output_queues s)
    ∧ last_output s'
      = (if reset then <[key := []]> (last_output s) else last_output s)
    ∧ running_processes s'
      = (if launched then <[key := p]> (running_processes s)
         else running_processes s)
    ∧ spawned s' = (if launched then S p else p)
    ∧ threads s'
      = (if launched
         then threads s ++ [new_pump (p, Stdout) q key; new_pump (p, Stderr) q key]
         else threads s).
Proof.
  destruct (negb (truthy (safe_program_name form))
            || not_in (safe_program_name form) (get_programs db)) eqn:Hv.
  - exists [], false, false. rewrite run_program_rejected; [done|].
    apply orb_true_iff in Hv as [Hv|Hv]; [left|right]; [|done].
    by apply negb_true_iff.
  - apply validated_inv in Hv as (key & Hsafe & Hne & Hin). exists key.
    rewrite (run_program_accepted _ _ _ _ _ Hsafe Hne Hin).
    destruct (get_program_code db key) as [code_text|];
      [destruct (popen_outcome env) as [e|]|].
    + exists true, false. by destruct (running_processes s !! key).
    + exists true, true. destruct (running_processes s !! key);
        cbn -[lookup insert]; rewrite <- ?app_assoc; done.
    + exists true, false. by destruct (running_processes s !! key).
Qed.

(** ** References never dangle *)

Lemma well_formed_fields s s' :
  running_processes s' = running_processes s ->
  output_queues s' = output_queues s ->
  length (queue_heap s') = length (queue_heap s) ->
  spawned s' = spawned s ->
  q_ <$> threads s' = q_ <$> threads s ->
  gen_q <$> responses s' = gen_q <$> responses s ->
  well_formed s -> well_formed s'.
Proof.
  intros Hr Ho Hh Hs Ht Hg (Hwr & Hwo & Hwt & Hwg).
  unfold well_formed. rewrite Hr, Ho, Hh, Hs.
  split; [done|]. split; [done|]. split.
  - apply (Forall_fmap q_ (λ r, (r < length (queue_heap s))%nat)).
    rewrite Ht. by apply Forall_fmap.
  - apply (Forall_fmap gen_q (λ o, ∀ r, o = Some r -> (r < length (queue_heap s))%nat)).
    rewrite Hg. by apply Forall_fmap.
Qed.

Lemma fmap_insert_same {A B} (f : A -> B) (l : list A) i x y :
  l !! i = Some x -> f y = f x -> f <$> <[i := y]> l = f <$> l.
Proof.
  intros Hi Hf. rewrite list_fmap_insert, Hf.
  apply list_insert_id. by rewrite list_lookup_fmap, Hi.
Qed.

Lemma pump_well_formed i line s : well_formed s -> well_formed (pump i line s).
Proof.
  unfold pump. destruct (threads s !! i) as [t|] eqn:Hi; [|done].
  destruct (pump_at t) as [|d|d|] eqn:Hpc; [| | |done].
  - destruct line as [|b line]; [|destruct (decode_replace (b :: line))];
      apply well_formed_fields; try done;
      cbn [threads with_threads log]; by apply (fmap_insert_same _ _ _ t).
  - apply well_formed_fields; try done.
    + cbn [queue_heap with_threads queue_put with_heap]. by rewrite length_insert.
    + cbn [threads with_threads queue_put with_heap].
      by apply (fmap_insert_same _ _ _ t).
  - apply well_formed_fields; try done.
    cbn [threads with_threads append_output with_output].
    by apply (fmap_insert_same _ _ _ t).
Qed.

Lemma event_stream_well_formed j s :
  well_formed s -> well_formed (event_stream j s).
Proof.
  unfold event_stream. destruct (responses s !! j) as [g|] eqn:Hj; [|done].
  destruct (gen_at g) as [| | | |line] eqn:Hpc.
  - apply well_formed_fields; try done.
    cbn [responses with_responses]. by apply (fmap_insert_same _ _ _ g).
  - destruct (gen_q g); [|done]. apply well_formed_fields; try done.
    cbn [responses with_responses]. by apply (fmap_insert_same _ _ _ g).
  - destruct (gen_q g) as [r|]; [|done].
    destruct (queue_items s r); apply well_formed_fields; try done;
      cbn [responses with_responses]; by apply (fmap_insert_same _ _ _ g).
  - destruct (gen_q g) as [r|]; [|done].
    destruct (queue_items s r) as [|line rest]; [done|].
    apply well_formed_fields; try done.
    + cbn [queue_heap with_responses with_heap]. by rewrite length_insert.
    + cbn [responses with_responses with_heap].
      by apply (fmap_insert_same _ _ _ g).
  - apply well_formed_fields; try done.
    cbn [responses with_responses]. by apply (fmap_insert_same _ _ _ g).
Qed.

Lemma run_program_well_formed db form env s :
  well_formed s -> well_formed (run_program db form env s).1.
Proof.
  intros (Hwr & Hwo & Hwt & Hwg).
  destruct (run_program_fields db form env s)
    as (key & reset & launched & Himp & Hg & Hh & Ho & _ & Hr & Hs & Ht).
  cbv zeta in *. unfold well_formed. rewrite Hg, Hh, Ho, Hr, Hs, Ht.
  destruct reset.
  - rewrite length_app. cbn [length].
    split; [|split; [|split]].
    + destruct launched.
      * apply map_Forall_insert_2; [lia|].
        eapply map_Forall_impl; [exact Hwr|]. cbv beta. intros; lia.
      * done.
    + apply map_Forall_insert_2; [lia|].
      eapply map_Forall_impl; [exact Hwo|]. cbv beta. intros; lia.
    + assert (Forall (λ t, (q_ t < length (queue_heap s) + 1)%nat) (threads s)) as Hwt'
        by (eapply Forall_impl; [exact Hwt|]; cbv beta; intros; lia).
      destruct launched; [|done].
      apply Forall_app. split; [done|]. repeat constructor; cbn; lia.
    + eapply Forall_impl; [exact Hwg|]. cbv beta. intros g Hgq r Hr'.
      specialize (Hgq r Hr'). lia.
  - destruct launched; [by specialize (Himp eq_refl)|]. done.
Qed.

Lemma step_well_formed e s : well_formed s -> well_formed (step s e).
Proof.
  intros Hwf. destruct e as [db form env|path|i line|j]; cbn [step].
  - by apply run_program_well_formed.
  - destruct Hwf as (Hwr & Hwo & Hwt & Hwg). unfold well_formed, stream_program.
    cbn [running_processes output_queues queue_heap spawned threads responses
         with_responses].
    split; [done|]. split; [done|]. split; [done|].
    apply Forall_app. split; [done|]. constructor; [|constructor].
    cbn [gen_q]. intros r Hr.
    destruct (safe_program_name (Some path)) as [p|]; [|done].
    by apply (Hwo p r).
  - by apply pump_well_formed.
  - by apply event_stream_well_formed.
Qed.

Lemma exec_well_formed es : ∀ s, well_formed s -> well_formed (exec es s).
Proof.
  induction es as [|e es IH]; intros s Hs; [done|].
  cbn [exec fold_left]. apply IH. by apply step_well_formed.
Qed.

Lemma initial_well_formed : well_formed initial.
Proof.
  unfold well_formed, initial. cbn.
  split; [apply map_Forall_empty|]. split; [apply map_Forall_empty|].
  split; constructor.
Qed.

(** X7.  In every state the server can reach no reference dangles:
    each tracked handle belongs to a process that was launched, and
    each queue named by a dictionary entry, held by a pump or held by
    a stream generator has been created. *)
Theorem references_never_dangle es : well_formed (exec es initial).
Proof. apply exec_well_formed, initial_well_formed. Qed.

(** ** Two pumps for each process *)

Lemma pump_pipes i line s :
  spawned (pump i line s) = spawned s
  ∧ pipe <$> threads (pump i line s) = pipe <$> threads s.
Proof.
  unfold pump. destruct (threads s !! i) as [t|] eqn:Hi; [|done].
  destruct (pump_at t) as [|d|d|] eqn:Hpc; [| | |done].
  - destruct line as [|b line]; [|destruct (decode_replace (b :: line))];
      (split; [done|]); cbn [threads with_threads log];
      by apply (fmap_insert_same _ _ _ t).
  - split; [done|]. cbn [threads with_threads queue_put with_heap].
    by apply (fmap_insert_same _ _ _ t).
  - split; [done|]. cbn [threads with_threads append_output with_output].
    by apply (fmap_insert_same _ _ _ t).
Qed.

Lemma event_stream_spawned j s : spawned (event_stream j s) = spawned s.
Proof.
  unfold event_stream. destruct (responses s !! j) as [g|]; [|done].
  destruct (gen_at g); try done;
    destruct (gen_q g); try done; destruct (queue_items s _); done.
Qed.

Lemma step_pipes e s :
  pipe <$> threads s = seq 0 (spawned s) ≫= pipes_of ->
  pipe <$> threads (step s e) = seq 0 (spawned (step s e)) ≫= pipes_of.
Proof.
  intros Hp. destruct e as [db form env|path|i line|j]; cbn [step].
  - destruct (run_program_fields db form env s)
      as (key & reset & launched & _ & _ & _ & _ & _ & _ & Hs & Ht).
    cbv zeta in *. rewrite Hs, Ht. destruct launched; [|done].
    rewrite fmap_app, Hp, seq_S, bind_app. cbn [plus]. f_equal.
  - done.
  - destruct (pump_pipes i line s) as [-> ->]. done.
  - by rewrite event_stream_threads, event_stream_spawned.
Qed.

(** X8.  In every state the server can reach, the pump threads are
    exactly the stdout pump and the stderr pump of each process
    launched so far, in launch order: two per process, never more,
    never fewer. *)
Theorem two_pumps_per_process es :
  pipe <$> threads (exec es initial)
  = seq 0 (spawned (exec es initial)) ≫= pipes_of.
Proof.
  assert (∀ s, pipe <$> threads s = seq 0 (spawned s) ≫= pipes_of ->
               pipe <$> threads (exec es s) = seq 0 (spawned (exec es s)) ≫= pipes_of)
    as H.
  { induction es as [|e es IH]; intros s Hs; [done|].
    cbn [exec fold_left]. apply IH. by apply step_pipes. }
  by apply H.
Qed.

(** ** Nothing is lost on a queue, nothing is doubled *)

Lemma concat_fmap_insert {A B} (f : A -> list B) (l : list A) i x y extra :
  l !! i = Some x -> f y ≡ₚ f x ++ extra ->
  concat (f <$> <[i := y]> l) ≡ₚ concat (f <$> l) ++ extra.
Proof.
  intros Hi Hf. pose proof (lookup_lt_Some _ _ _ Hi) as Hlen.
  rewrite insert_take_drop by done.
  rewrite <- (take_drop_middle l i x Hi) at 3.
  rewrite !fmap_app, !fmap_cons, !concat_app, !concat_cons, Hf.
  rewrite <- !app_assoc. f_equiv. f_equiv. apply Permutation_app_comm.
Qed.

Lemma queue_items_snoc s s' r :
  queue_heap s' = queue_heap s ++ [[]] -> queue_items s' r = queue_items s r.
Proof.
  unfold queue_items. intros ->.
  destruct (decide (r < length (queue_heap s))%nat) as [Hlt|Hge].
  - by rewrite lookup_app_l.
  - rewrite (lookup_ge_None_2 (queue_heap s)) by lia.
    destruct (decide (r = length (queue_heap s))) as [->|Hne].
    + by rewrite list_lookup_middle.
    + rewrite lookup_ge_None_2; [done|]. rewrite length_app. cbn. lia.
Qed.

Lemma queue_items_insert s s' r0 v r :
  queue_heap s' = <[r0 := v]> (queue_heap s) ->
  (r0 < length (queue_heap s))%nat ->
  queue_items s' r = if decide (r0 = r) then v else queue_items s r.
Proof.
  unfold queue_items. intros -> Hlt. destruct (decide (r0 = r)) as [<-|Hne].
  - by rewrite list_lookup_insert_eq.
  - by rewrite list_lookup_insert_ne.
Qed.

Lemma pump_conserved i line s :
  well_formed s -> conserved s -> conserved (pump i line s).
Proof.
  intros (_ & _ & Hwt & _) Hc. unfold pump.
  destruct (threads s !! i) as [t|] eqn:Hi; [|done].
  pose proof (Forall_lookup_1 _ _ _ _ Hwt Hi) as Hq. cbv beta in Hq.
  assert (∀ s' t', responses s' = responses s -> queue_heap s' = queue_heap s ->
            q_ t' = q_ t -> delivered t' = delivered t ->
            threads s' = <[i := t']> (threads s) -> conserved s') as Hsame.
  { intros s' t' Hg Hh Hq' Hd Ht r. unfold put_on, taken_from, queue_items.
    rewrite Hg, Hh, Ht.
    rewrite (concat_fmap_insert _ _ i t t' []); [|done|by rewrite Hq', Hd, app_nil_r].
    rewrite app_nil_r. apply Hc. }
  destruct (pump_at t) as [|d|d|] eqn:Hpc; [| | |done].
  - destruct line as [|b line]; [|destruct (decode_replace (b :: line))];
      (eapply Hsame; [| | | |reflexivity]; done).
  - intros r. unfold put_on, taken_from.
    cbn [threads responses with_threads queue_put with_heap].
    rewrite (concat_fmap_insert _ _ i t _ (if decide (q_ t = r) then [d] else []));
      [|done|].
    + rewrite (queue_items_insert s _ (q_ t) (queue_items s (q_ t) ++ [d]) r);
        [|done|done].
      specialize (Hc r). unfold put_on, taken_from in Hc. rewrite Hc.
      destruct (decide (q_ t = r)) as [<-|Hne].
      * by rewrite app_assoc.
      * by rewrite app_nil_r.
    + cbn [q_ set_pump delivered]. destruct (decide (q_ t = r)); [done|].
      by rewrite app_nil_r.
  - (eapply Hsame; [| | | |reflexivity]; done).
Qed.

Lemma event_stream_conserved j s : conserved s -> conserved (event_stream j s).
Proof.
  intros Hc. unfold event_stream.
  destruct (responses s !! j) as [g|] eqn:Hj; [|done].
  assert (∀ s' g', threads s' = threads s -> queue_heap s' = queue_heap s ->
            gen_q g' = gen_q g -> taken g' = taken g ->
            responses s' = <[j := g']> (responses s) -> conserved s') as Hsame.
  { intros s' g' Ht Hh Hq' Hd Hg r. unfold put_on, taken_from, queue_items.
    rewrite Ht, Hh, Hg.
    rewrite (concat_fmap_insert _ _ j g g' []); [|done|by rewrite Hq', Hd, app_nil_r].
    rewrite app_nil_r. apply Hc. }
  destruct (gen_at g) as [| | | |line] eqn:Hpc.
  - (eapply Hsame; [| | | |reflexivity]; done).
  - destruct (gen_q g) eqn:Hq; [|done]. (eapply Hsame; [| | | |reflexivity]; done).
  - destruct (gen_q g) as [r0|] eqn:Hq; [|done].
    destruct (queue_items s r0); (eapply Hsame; [| | | |reflexivity]; done).
  - destruct (gen_q g) as [r0|] eqn:Hq; [|done].
    destruct (queue_items s r0) as [|line rest] eqn:Hitems; [done|].
    assert (r0 < length (queue_heap s))%nat as Hlt.
    { unfold queue_items in Hitems.
      destruct (queue_heap s !! r0) eqn:E; [by eapply lookup_lt_Some|done]. }
    intros r. unfold put_on, taken_from.
    cbn [threads responses with_responses with_heap].
    rewrite (concat_fmap_insert _ _ j g _
               (if decide (Some r0 = Some r) then [line] else []));
      [|done|].
    + rewrite (queue_items_insert s _ r0 rest r); [|done|done].
      specialize (Hc r). unfold put_on, taken_from in Hc. rewrite Hc.
      destruct (decide (r0 = r)) as [<-|Hne].
      * rewrite decide_True by done. rewrite Hitems, <- app_assoc. done.
      * rewrite decide_False by congruence. by rewrite app_nil_r.
    + cbn [gen_q set_gen taken]. rewrite Hq.
      destruct (decide (Some r0 = Some r)); [done|]. by rewrite app_nil_r.
  - (eapply Hsame; [| | | |reflexivity]; done).
Qed.

Lemma step_conserved e s :
  well_formed s -> conserved s -> conserved (step s e).
Proof.
  intros Hwf Hc. destruct e as [db form env|path|i line|j]; cbn [step].
  - destruct (run_program_fields db form env s)
      as (key & reset & launched & Himp & Hg & Hh & _ & _ & _ & _ & Ht).
    cbv zeta in *. intros r. unfold put_on, taken_from. rewrite Hg, Ht.
    assert (queue_items (run_program db form env s).1 r = queue_items s r) as ->.
    { destruct reset; [by apply queue_items_snoc|].
      unfold queue_items. by rewrite Hh. }
    destruct launched; [|apply Hc].
    rewrite fmap_app, concat_app. cbn [fmap list_fmap concat q_ delivered new_pump].
    destruct (decide (length (queue_heap s) = r)); cbn [app];
      rewrite app_nil_r; apply Hc.
  - intros r. unfold put_on, taken_from, queue_items, stream_program.
    cbn [threads responses queue_heap with_responses].
    rewrite fmap_app, concat_app. cbn [fmap list_fmap concat taken].
    destruct (decide (_ = Some r)); cbn [app]; rewrite app_nil_r; apply Hc.
  - by apply pump_conserved.
  - by apply event_stream_conserved.
Qed.

(** X9.  In every state the server can reach and for every queue,
    the chunks pumps have put on it are, as a multiset, the chunks
    stream generators have taken from it together with the chunks
    still waiting in it: no chunk is lost and none is handed to two
    viewers. *)
Theorem chunks_are_conserved es r :
  put_on r (exec es initial)
  ≡ₚ taken_from r (exec es initial) ++ queue_items (exec es initial) r.
Proof.
  assert (∀ s, well_formed s -> conserved s -> conserved (exec es s)) as H.
  { induction es as [|e es IH]; intros s Hwf Hc; [done|].
    cbn [exec fold_left]. apply IH; [by apply step_well_formed|].
    by apply step_conserved. }
  apply H; [apply initial_well_formed|]. intros r'. done.
Qed.

(** ** From the pipe to the viewer *)

Lemma relay_S j n :
  relay j (S n) = StreamStep j :: StreamStep j :: StreamStep j :: relay j n.
Proof. unfold relay. by replace (3 * S n)%nat with (S (S (S (3 * n)))) by lia. Qed.

Lemma responses_insert_lookup s j g0 g :
  responses s !! j = Some g0 -> responses (with_responses <[j := g]> s) !! j = Some g.
Proof.
  intros Hj. cbn [responses with_responses].
  apply list_lookup_insert_eq. by eapply lookup_lt_Some.
Qed.

Lemma event_stream_test s j g r line rest :
  responses s !! j = Some g -> gen_at g = GenInner -> gen_q g = Some r ->
  queue_items s r = line :: rest ->
  event_stream j s
  = with_responses <[j := set_gen g GenGet (taken g) (yielded g)]> s.
Proof. intros Hj Hpc Hq Hi. unfold event_stream. by rewrite Hj, Hpc, Hq, Hi. Qed.

Lemma event_stream_get s j g r line rest :
  responses s !! j = Some g -> gen_at g = GenGet -> gen_q g = Some r ->
  queue_items s r = line :: rest ->
  event_stream j s
  = with_responses <[j := set_gen g (GenYield line) (taken g ++ [line]) (yielded g)]>
      (with_heap <[r := rest]> s).
Proof. intros Hj Hpc Hq Hi. unfold event_stream. by rewrite Hj, Hpc, Hq, Hi. Qed.

Lemma event_stream_yield s j g line :
  responses s !! j = Some g -> gen_at g = GenYield line ->
  event_stream j s
  = with_responses
      <[j := set_gen g GenInner (taken g) (yielded g ++ [data_event line])]> s.
Proof. intros Hj Hpc. unfold event_stream. by rewrite Hj, Hpc. Qed.

Lemma relay_one s j g r line rest :
  responses s !! j = Some g -> gen_at g = GenInner -> gen_q g = Some r ->
  queue_items s r = line :: rest ->
  ∃ g',
    let s' := exec [StreamStep j; StreamStep j; StreamStep j] s in
    responses s' !! j = Some g'
    ∧ gen_at g' = GenInner ∧ gen_q g' = Some r
    ∧ taken g' = taken g ++ [line]
    ∧ yielded g' = yielded g ++ [data_event line]
    ∧ queue_items s' r = rest
    ∧ threads s' = threads s ∧ last_output s' = last_output s.
Proof.
  intros Hj Hpc Hq Hitems.
  assert (r < length (queue_heap s))%nat as Hlt.
  { unfold queue_items in Hitems.
    destruct (queue_heap s !! r) eqn:E; [by eapply lookup_lt_Some|done]. }
  set (g1 := set_gen g GenGet (taken g) (yielded g)).
  set (s1 := with_responses <[j := g1]> s).
  assert (responses s1 !! j = Some g1) as Hj1 by by eapply responses_insert_lookup.
  set (g2 := set_gen g1 (GenYield line) (taken g1 ++ [line]) (yielded g1)).
  set (s2 := with_responses <[j := g2]> (with_heap <[r := rest]> s1)).
  assert (responses s2 !! j = Some g2) as Hj2
    by (eapply responses_insert_lookup; exact Hj1).
  set (g3 := set_gen g2 GenInner (taken g2) (yielded g2 ++ [data_event line])).
  assert (exec [StreamStep j; StreamStep j; StreamStep j] s
          = with_responses <[j := g3]> s2) as Hs.
  { cbn [exec fold_left step].
    rewrite (event_stream_test s j g r line rest Hj Hpc Hq Hitems).
    fold g1. fold s1.
    rewrite (event_stream_get s1 j g1 r line rest Hj1 eq_refl Hq Hitems).
    fold g2. fold s2.
    by rewrite (event_stream_yield s2 j g2 line Hj2 eq_refl). }
  exists g3. cbv zeta. rewrite Hs.
  split; [eapply responses_insert_lookup; exact Hj2|].
  split; [done|]. split; [done|]. split; [done|]. split; [done|].
  split; [|done]. unfold queue_items. subst s2 s1.
  cbn [queue_heap with_responses with_heap].
  by rewrite list_lookup_insert_eq.
Qed.

Lemma relay_all j items : ∀ s g r,
  responses s !! j = Some g -> gen_at g = GenInner -> gen_q g = Some r ->
  queue_items s r = items ->
  ∃ g',
    let s' := exec (relay j (length items)) s in
    responses s' !! j = Some g'
    ∧ gen_at g' = GenInner ∧ gen_q g' = Some r
    ∧ taken g' = taken g ++ items
    ∧ yielded g' = yielded g ++ (data_event <$> items)
    ∧ queue_items s' r = []
    ∧ threads s' = threads s ∧ last_output s' = last_output s.
Proof.
  induction items as [|line rest IH]; intros s g r Hj Hpc Hq Hitems.
  - exists g. cbn. by rewrite !app_nil_r.
  - destruct (relay_one s j g r line rest Hj Hpc Hq Hitems)
      as (g1 & Hj1 & Hpc1 & Hq1 & Htk1 & Hy1 & Hitems1 & Ht1 & Ho1).
    destruct (IH _ g1 r Hj1 Hpc1 Hq1 Hitems1)
      as (g' & Hj' & Hpc' & Hq' & Htk' & Hy' & Hitems' & Ht' & Ho').
    exists g'. cbn [length]. rewrite relay_S. cbv zeta in *.
    change (exec (StreamStep j :: StreamStep j :: StreamStep j :: ?es) s)
      with (exec es (exec [StreamStep j; StreamStep j; StreamStep j] s)).
    rewrite Htk1 in Htk'. rewrite Hy1 in Hy'.
    rewrite Htk', Hy', Ht', Ho', Ht1, Ho1, <- !app_assoc. done.
Qed.

Lemma pump_alone_responses i lines : ∀ s,
  responses (exec (pump_alone i lines) s) = responses s.
Proof.
  induction lines as [|line lines IH]; intros s; [done|].
  rewrite pump_alone_cons, IH. cbn [exec fold_left step].
  by rewrite !pump_step_responses.
Qed.

(** X10.  From the pipe to the viewer.  A pump at the head of its
    loop and a polling generator share a queue that is empty.  The
    pump then handles any non-empty lines and the generator is stepped
    three times per line: the response grows by exactly one
    [data_event] per line, holding that line's decoding, in the order
    read; the queue is empty again; and the replay buffer of the
    pump's program has grown by the same chunks. *)
Theorem viewer_receives_every_line s i t j g lines :
  threads s !! i = Some t -> pump_at t = AtReadline ->
  (q_ t < length (queue_heap s))%nat ->
  responses s !! j = Some g -> gen_at g = GenInner -> gen_q g = Some (q_ t) ->
  queue_items s (q_ t) = [] ->
  Forall (λ l, l ≠ []) lines ->
  ∃ chunks g',
    decodes lines chunks
    ∧ let s' := exec (pump_alone i lines ++ relay j (length lines)) s in
      responses s' !! j = Some g'
      ∧ yielded g' = yielded g ++ (data_event <$> chunks)
      ∧ taken g' = taken g ++ chunks
      ∧ queue_items s' (q_ t) = []
      ∧ read_output s' (prog t) = read_output s (prog t) ++ concat chunks.
Proof.
  intros Hi Hpc Hq Hj Hgpc Hgq Hempty Hne.
  destruct (pump_alone_run i lines s t Hi Hpc Hq Hne)
    as (chunks & t' & Hcs & Hi' & Hpc' & Hqueue & Hout).
  cbv zeta in *. rewrite Hempty in Hqueue. cbn [app] in Hqueue.
  set (s1 := exec (pump_alone i lines) s) in *.
  assert (responses s1 !! j = Some g) as Hj1
    by (subst s1; by rewrite pump_alone_responses).
  destruct (relay_all j chunks s1 g (q_ t) Hj1 Hgpc Hgq Hqueue)
    as (g' & Hj' & _ & _ & Htk & Hy & Hitems & _ & Ho).
  exists chunks, g'. split; [exact Hcs|].
  unfold exec. rewrite fold_left_app. fold (exec (pump_alone i lines) s).
  fold s1. rewrite (Forall2_length _ _ _ Hcs).
  fold (exec (relay j (length chunks)) s1). cbv zeta in *.
  split; [done|]. split; [done|]. split; [done|]. split; [done|].
  unfold read_output in *. by rewrite Ho.
Qed.

Lemma viewer_receives_every_line_witness :
  ∃ chunks g',
    let s := exec [PostRun (single_block 7 (Some (lit "pass"))) (Some (lit "7")) calm;
                   GetStream (lit "7"); StreamStep 0; StreamStep 0] initial in
    let s' := exec (pump_alone 1 [out_line "a"; Byte.xff :: out_line "b"]
                    ++ relay 0 2) s in
    responses s' !! 0%nat = Some g'
    ∧ yielded g' = [retry_directive] ++ (data_event <$> chunks).
Proof.
  destruct (viewer_receives_every_line
              (exec [PostRun (single_block 7 (Some (lit "pass"))) (Some (lit "7")) calm;
                     GetStream (lit "7"); StreamStep 0; StreamStep 0] initial)
              1 (new_pump (0%nat, Stderr) 0 (lit "7"))
              0 {| gen_q := Some 0%nat; gen_at := GenInner; taken := [];
                   yielded := [retry_directive] |}
              [out_line "a"; Byte.xff :: out_line "b"])
    as (chunks & g' & _ & Hj & Hy & _).
  - reflexivity.
  - reflexivity.
  - vm_compute. lia.
  - reflexivity.
  - reflexivity.
  - reflexivity.
  - reflexivity.
  - repeat constructor; discriminate.
  - exists chunks, g'. split; [exact Hj | exact Hy].
Defined.

(** ** What stays as it is *)

Lemma pump_threads_other i line s k :
  k ≠ i -> threads (pump i line s) !! k = threads s !! k.
Proof.
  intros Hk. unfold pump. destruct (threads s !! i) as [t|] eqn:Hi; [|done].
  destruct (pump_at t) as [|d|d|]; [| | |done];
    [destruct line as [|b line]; [|destruct (decode_replace (b :: line))]|..];
    cbn [threads with_threads log queue_put append_output with_heap with_output];
    by rewrite list_lookup_insert_ne.
Qed.

Lemma step_closed e s i t :
  threads s !! i = Some t -> pump_at t = PipeClosed ->
  threads (step s e) !! i = Some t.
Proof.
  intros Hi Hpc. destruct e as [db form env|path|k line|j]; cbn [step].
  - destruct (run_program_fields db form env s)
      as (key & reset & launched & _ & _ & _ & _ & _ & _ & _ & Ht).
    cbv zeta in Ht. rewrite Ht. destruct launched; [|done].
    by apply lookup_app_l_Some.
  - done.
  - destruct (decide (k = i)) as [->|Hk].
    + unfold pump. by rewrite Hi, Hpc.
    + by rewrite pump_threads_other.
  - by rewrite event_stream_threads.
Qed.

(** X11.  A pump that has seen the end of its pipe is finished for
    good: whatever is scheduled afterwards, its record, and with it
    the list of chunks it has put and appended, never changes again. *)
Theorem closed_pump_is_final es : ∀ s i t,
  threads s !! i = Some t -> pump_at t = PipeClosed ->
  threads (exec es s) !! i = Some t.
Proof.
  induction es as [|e es IH]; intros s i t Hi Hpc; [done|].
  cbn [exec fold_left]. apply IH; [|done]. by apply step_closed.
Qed.

Lemma closed_pump_is_final_witness :
  threads
    (exec [PumpStep 0 (out_line "late"); PumpStep 0 []; PumpStep 0 []]
       (exec [PostRun (single_block 7 (Some (lit "pass"))) (Some (lit "7")) calm;
              PumpStep 0 []] initial)) !! 0%nat
  = Some (set_pump (new_pump (0%nat, Stdout) 0 (lit "7")) PipeClosed [] [] []).
Proof.
  exact (closed_pump_is_final
           [PumpStep 0 (out_line "late"); PumpStep 0 []; PumpStep 0 []]
           (exec [PostRun (single_block 7 (Some (lit "pass"))) (Some (lit "7")) calm;
                  PumpStep 0 []] initial)
           0 (set_pump (new_pump (0%nat, Stdout) 0 (lit "7")) PipeClosed [] [] [])
           eq_refl eq_refl).
Defined.

Lemma event_stream_other j s k :
  k ≠ j -> responses (event_stream j s) !! k = responses s !! k.
Proof.
  intros Hk. unfold event_stream. destruct (responses s !! j) as [g|]; [|done].
  destruct (gen_at g) as [| | | |line].
  - cbn [responses with_responses]. by rewrite list_lookup_insert_ne.
  - destruct (gen_q g); [|done].
    cbn [responses with_responses]. by rewrite list_lookup_insert_ne.
  - destruct (gen_q g) as [r|]; [|done].
    destruct (queue_items s r); cbn [responses with_responses];
      by rewrite list_lookup_insert_ne.
  - destruct (gen_q g) as [r|]; [|done].
    destruct (queue_items s r); [done|].
    cbn [responses with_responses with_heap]. by rewrite list_lookup_insert_ne.
  - cbn [responses with_responses]. by rewrite list_lookup_insert_ne.
Qed.

Lemma step_unbound e s j g :
  responses s !! j = Some g -> unbound g ->
  ∃ g', responses (step s e) !! j = Some g' ∧ unbound g'.
Proof.
  intros Hj Hu. destruct e as [db form env|path|i line|k]; cbn [step].
  - destruct (run_program_fields db form env s)
      as (key & reset & launched & _ & Hg & _).
    cbv zeta in Hg. rewrite Hg. by exists g.
  - exists g. split; [|done]. cbn [stream_program responses with_responses].
    by apply lookup_app_l_Some.
  - rewrite pump_step_responses. by exists g.
  - destruct (decide (k = j)) as [->|Hk].
    + destruct Hu as (Hq & Htk & [[Hpc Hy]|[Hpc Hy]]).
      * unfold event_stream. rewrite Hj, Hpc. eexists.
        split; [eapply responses_insert_lookup; exact Hj|].
        split; [done|]. split; [done|]. right. cbn. by rewrite Hy.
      * unfold event_stream. rewrite Hj, Hpc, Hq. exists g.
        split; [done|]. split; [done|]. split; [done|]. by right.
    + rewrite event_stream_other by done. by exists g.
Qed.

(** X12.  A viewer who connects to [/stream/<program>] while no queue
    is registered under the normalised name is bound to nothing, for
    good: whatever happens afterwards, later runs of that program
    included, the generator takes no chunk and the response never
    holds more than the retry directive. *)
Theorem early_viewer_stays_unserved es s path :
  (∀ p, safe_program_name (Some path) = Some p -> output_queues s !! p = None) ->
  ∃ g, responses (exec (GetStream path :: es) s) !! length (responses s) = Some g
       ∧ gen_q g = None ∧ taken g = []
       ∧ (yielded g = [] ∨ yielded g = [retry_directive]).
Proof.
  intros Hnone.
  assert (∀ es s j g, responses s !! j = Some g -> unbound g ->
            ∃ g', responses (exec es s) !! j = Some g' ∧ unbound g') as Hexec.
  { clear. induction es as [|e es IH]; intros s j g Hj Hu; [by exists g|].
    cbn [exec fold_left].
    destruct (step_unbound e s j g Hj Hu) as (g1 & Hj1 & Hu1). by eapply IH. }
  cbn [exec fold_left step].
  edestruct (Hexec es (stream_program path s) (length (responses s)))
    as (g & Hj & Hq & Htk & Hy).
  - cbn [stream_program responses with_responses]. apply list_lookup_middle. done.
  - split; [|split; [done|by left]]. cbn [gen_q].
    destruct (safe_program_name (Some path)) as [p|]; [|done]. by apply Hnone.
  - exists g. split; [exact Hj|]. split; [done|]. split; [done|].
    destruct Hy as [[_ Hy]|[_ Hy]]; [by left|by right].
Qed.

Lemma early_viewer_stays_unserved_witness :
  ∃ g,
    responses
      (exec (GetStream (lit "7")
             :: PostRun (single_block 7 (Some (lit "pass"))) (Some (lit "7")) calm
             :: pump_alone 0 [out_line "hello"] ++ replicate 9 (StreamStep 0))
         initial) !! 0%nat = Some g
    ∧ (yielded g = [] ∨ yielded g = [retry_directive]).
Proof.
  destruct (early_viewer_stays_unserved
              (PostRun (single_block 7 (Some (lit "pass"))) (Some (lit "7")) calm
               :: pump_alone 0 [out_line "hello"] ++ replicate 9 (StreamStep 0))
              initial (lit "7"))
    as (g & Hj & _ & _ & Hy).
  - intros p _. apply lookup_empty.
  - exists g. split; [exact Hj | exact Hy].
Defined.

(** ** More on decoding *)

Lemma utf8_decode_agrees_upto n : ∀ s t,
  (length s ≤ n)%nat ->
  utf8_decode Strict s = inr t -> utf8_decode Replace s = inr t.
Proof.
  induction n as [|n IH]; intros [|c0 s1] t Hlen; cbn [length] in Hlen;
    try done; try lia.
  cbn [utf8_decode]. decode_cases; cbn [length] in Hlen;
    unfold on_error, emit; intros Hs; try discriminate Hs;
    apply rmap_cons_inr in Hs as (t' & Hs & ->);
    (rewrite (IH _ t'); [reflexivity | cbn [length]; lia | exact Hs]).
Qed.

(** X13.  Decoding with [errors="replace"] changes nothing on input
    that strict decoding accepts: it returns the same text, so the
    replacement marker only ever stands for bytes that are not valid
    UTF-8 (or for an encoded U+FFFD). *)
Theorem replace_agrees_with_strict s t :
  utf8_decode Strict s = inr t -> decode_replace s = inr t.
Proof. apply (utf8_decode_agrees_upto (length s)). done. Qed.

Lemma replace_agrees_with_strict_witness :
  decode_replace [Byte.xe2; Byte.x82; Byte.xac; Byte.x0a] = inr [8364%N; 10%N].
Proof.
  apply (replace_agrees_with_strict [Byte.xe2; Byte.x82; Byte.xac; Byte.x0a]).
  reflexivity.
Defined.

(** ** A run that starts, a run that fails to start *)

(** X14.  A run request for a listed program with source text, when
    the launcher succeeds: the handler redirects; the registry tracks
    the new process under the identifier; the identifier gets a new
    empty queue and an empty replay buffer; the stdout pump and the
    stderr pump of the new process are started, bound to that queue
    and that identifier; and the registry entries, queues and buffers
    of all other identifiers, every existing queue's contents, the
    existing threads and the open streams are untouched. *)
Theorem run_program_success db form env s key code_text :
  safe_program_name form = Some key -> key ∈ get_programs db ->
  get_program_code db key = Some code_text -> popen_outcome env = None ->
  let out := run_program db form env s in
  let q := length (queue_heap s) in
  let p := spawned s in
  out.2 = inr (Redirect (Some key))
  ∧ running_processes out.1 !! key = Some p
  ∧ output_queues out.1 !! key = Some q
  ∧ queue_items out.1 q = []
  ∧ read_output out.1 key = []
  ∧ spawned out.1 = S p
  ∧ threads out.1
    = threads s ++ [new_pump (p, Stdout) q key; new_pump (p, Stderr) q key]
  ∧ responses out.1 = responses s
  ∧ (∀ other, other ≠ key ->
       running_processes out.1 !! other = running_processes s !! other
       ∧ output_queues out.1 !! other = output_queues s !! other
       ∧ read_output out.1 other = read_output s other)
  ∧ (∀ r, (r < q)%nat -> queue_items out.1 r = queue_items s r).
Proof.
  intros Hsafe Hin Hcode Hpopen out q p. subst out q p.
  destruct (listed_plain db key Hin) as (Hne & _ & _).
  rewrite (run_program_accepted _ _ _ _ _ Hsafe Hne Hin), Hcode, Hpopen.
  unfold read_output, queue_items.
  destruct (running_processes s !! key) as [h|];
    cbn -[lookup insert]; rewrite <- ?app_assoc; cbn [app];
    rewrite !lookup_insert_eq, list_lookup_middle by done;
    (do 8 (split; [done|]); split;
     [intros other Ho; by rewrite !lookup_insert_ne by done
     |intros r Hr; by rewrite lookup_app_l by done]).
Qed.

Lemma run_program_success_witness :
  threads (run_program (single_block 7 (Some (lit "pass"))) (Some (lit "7"))
             calm initial).1
  = [new_pump (0%nat, Stdout) 0 (lit "7"); new_pump (0%nat, Stderr) 0 (lit "7")].
Proof.
  refine (proj1 (proj2 (proj2 (proj2 (proj2 (proj2 (proj2
            (run_program_success (single_block 7 (Some (lit "pass")))
               (Some (lit "7")) calm initial (lit "7") (lit "pass") _ _ _ _)))))))).
  - reflexivity.
  - vm_compute. apply list_elem_of_here.
  - reflexivity.
  - reflexivity.
Defined.

(** X15.  A run request for a listed program with source text, when
    the launcher raises: the launcher's exception leaves the handler;
    no process is tracked or counted and no pump is started, so the
    registry still names the previous process, which has been sent
    [kill]; the identifier's queue and replay buffer are left in their
    reset, empty state. *)
Theorem run_program_launch_failure db form env s key code_text e :
  safe_program_name form = Some key -> key ∈ get_programs db ->
  get_program_code db key = Some code_text -> popen_outcome env = Some e ->
  let out := run_program db form env s in
  out.2 = inl e
  ∧ running_processes out.1 = running_processes s
  ∧ spawned out.1 = spawned s
  ∧ threads out.1 = threads s
  ∧ responses out.1 = responses s
  ∧ output_queues out.1 !! key = Some (length (queue_heap s))
  ∧ queue_items out.1 (length (queue_heap s)) = []
  ∧ read_output out.1 key = []
  ∧ trace out.1
    = trace s ++ [AListing]
        ++ match running_processes s !! key with
           | Some h => [AKill h]
           | None => []
           end
        ++ [ALookup key].
Proof.
  intros Hsafe Hin Hcode Hpopen out. subst out.
  destruct (listed_plain db key Hin) as (Hne & _ & _).
  rewrite (run_program_accepted _ _ _ _ _ Hsafe Hne Hin), Hcode, Hpopen.
  unfold read_output, queue_items.
  destruct (running_processes s !! key) as [h|];
    cbn -[lookup insert]; rewrite <- ?app_assoc; cbn [app];
    rewrite !lookup_insert_eq, list_lookup_middle by done;
    repeat split; done.
Qed.

Lemma run_program_launch_failure_witness :
  (run_program (single_block 7 (Some (lit "pass"))) (Some (lit "7"))
     {| kill_outcome := None; popen_outcome := Some (OSError 2) |} initial).2
  = inl (OSError 2).
Proof.
  refine (proj1 (run_program_launch_failure (single_block 7 (Some (lit "pass")))
                   (Some (lit "7"))
                   {| kill_outcome := None; popen_outcome := Some (OSError 2) |}
                   initial (lit "7") (lit "pass") (OSError 2) _ _ _ _)).
  - reflexivity.
  - vm_compute. apply list_elem_of_here.
  - reflexivity.
  - reflexivity.
Defined.

(** X16.  Run, capture, reload.  After a successful run request for a
    listed program, its stdout pump handles any non-empty lines with
    nothing else scheduled; the page for that program then shows
    exactly the decoded lines, concatenated in order, and nothing of
    what the replay buffer held before the run. *)
Theorem run_then_reload db form env s key code_text lines :
  safe_program_name form = Some key -> key ∈ get_programs db ->
  get_program_code db key = Some code_text -> popen_outcome env = None ->
  Forall (λ l, l ≠ []) lines ->
  ∃ chunks,
    decodes lines chunks
    ∧ let s' := exec (PostRun db form env
                      :: pump_alone (length (threads s)) lines) s in
      selected_program (index db (Some key) s') = Some key
      ∧ output_text (index db (Some key) s') = concat chunks
      ∧ queue_items s' (length (queue_heap s)) = chunks.
Proof.
  intros Hsafe Hin Hcode Hpopen Hlines.
  destruct (listed_plain db key Hin) as (Hne & _ & Hsafe').
  cbn [exec fold_left step]. fold (exec (pump_alone (length (threads s)) lines)).
  set (s1 := (run_program db form env s).1).
  assert (threads s1 !! length (threads s)
          = Some (new_pump (spawned s, Stdout) (length (queue_heap s)) key)
          ∧ length (queue_heap s1) = S (length (queue_heap s))
          ∧ queue_items s1 (length (queue_heap s)) = []
          ∧ read_output s1 key = []) as (Hi & Hlen & Hq0 & Ho0).
  { subst s1. rewrite (run_program_accepted _ _ _ _ _ Hsafe Hne Hin), Hcode, Hpopen.
    unfold read_output, queue_items.
    destruct (running_processes s !! key) as [h|];
      cbn -[lookup insert]; rewrite <- ?app_assoc; cbn [app];
      rewrite !lookup_insert_eq, !list_lookup_middle, length_app by done;
      cbn [length]; repeat split; try done; lia. }
  destruct (pump_alone_run (length (threads s)) lines s1 _ Hi eq_refl)
    as (chunks & t' & Hcs & _ & _ & Hqueue & Hout);
    [cbn [q_ new_pump]; lia | exact Hlines |].
  cbn [q_ prog new_pump] in Hqueue, Hout. cbv zeta in *.
  rewrite Hq0 in Hqueue. rewrite Ho0 in Hout. cbn [app] in Hqueue, Hout.
  exists chunks. split; [exact Hcs|].
  unfold index. cbn [selected_program output_text].
  rewrite Hsafe'.
  assert (select_program (get_programs db) (Some key) = Some key) as ->.
  { unfold select_program.
    destruct (get_programs db) as [|first rest] eqn:E;
      [by apply not_elem_of_nil in Hin|].
    cbn [not_in]. by rewrite bool_decide_eq_true_2. }
  assert (truthy (Some key) = true) as -> by by destruct key.
  cbn [from_option id]. done.
Qed.

Lemma run_then_reload_witness :
  ∃ chunks,
    decodes [out_line "hello"] chunks
    ∧ output_text
        (index (single_block 42 (Some (lit "print('hello')"))) (Some (lit "42"))
           (exec (PostRun (single_block 42 (Some (lit "print('hello')")))
                    (Some (lit "42")) calm
                  :: pump_alone 0 [out_line "hello"]) initial))
      = concat chunks.
Proof.
  destruct (run_then_reload (single_block 42 (Some (lit "print('hello')")))
              (Some (lit "42")) calm initial (lit "42") (lit "print('hello')")
              [out_line "hello"])
    as (chunks & Hcs & _ & Hout & _).
  - reflexivity.
  - vm_compute. apply list_elem_of_here.
  - reflexivity.
  - reflexivity.
  - repeat constructor; discriminate.
  - exists chunks. split; [exact Hcs | exact Hout].
Defined.

(** ** What a normalised name is made of *)



(* ================================================================= *)
(** * The channel, the buffer and the wire *)

Lemma exec_conserved es : ∀ s,
  well_formed s -> conserved s -> conserved (exec es s).
Proof.
  induction es as [|e es IH]; intros s Hwf Hc; [done|].
  cbn [exec fold_left]. apply IH; [by apply step_well_formed|].
  by apply step_conserved.
Qed.

Lemma initial_conserved : conserved initial.
Proof. intros r. done. Qed.

Lemma delivered_put_on s i t d :
  threads s !! i = Some t -> d ∈ delivered t -> d ∈ put_on (q_ t) s.
Proof.
  intros Hi Hd. unfold put_on. apply list_elem_of_In, in_concat.
  exists (delivered t). split; [|by apply list_elem_of_In].
  apply list_elem_of_In, list_elem_of_fmap. exists t. split.
  - by rewrite decide_True.
  - by eapply list_elem_of_lookup_2.
Qed.

(** C5.  In every state the server can reach and for every pump:
    - the chunks it has appended to the replay buffer form a prefix
      of the chunks it has put on its queue, at most one behind;
    - these two histories are what the pump really did: its put step
      adds the chunk in hand at the end of the queue object it holds
      and records it as delivered, leaving every buffer alone; its
      append step adds the same chunk at the end of
      [last_output[prog]] and records it as appended, leaving every
      queue alone; its other steps touch neither;
    - the chunk about to be appended has been offered on the queue
      object: it is waiting there or a viewer has taken it. *)
Theorem appended_follows_delivered es :
  let s := exec es initial in
  Forall (λ t, appended t `prefix_of` delivered t
               ∧ (length (delivered t) ≤ S (length (appended t)))%nat)
         (threads s)
  ∧ ∀ i t line, threads s !! i = Some t ->
      ∃ t', threads (pump i line s) !! i = Some t'
        ∧ match pump_at t with
          | AtPut d =>
              queue_heap (pump i line s)
              = <[q_ t := queue_items s (q_ t) ++ [d]]> (queue_heap s)
              ∧ queue_items (pump i line s) (q_ t) = queue_items s (q_ t) ++ [d]
              ∧ delivered t' = delivered t ++ [d]
              ∧ last_output (pump i line s) = last_output s
              ∧ appended t' = appended t
          | AtAppend d =>
              last_output (pump i line s)
              = <[prog t := read_output s (prog t) ++ d]> (last_output s)
              ∧ read_output (pump i line s) (prog t) = read_output s (prog t) ++ d
              ∧ appended t' = appended t ++ [d]
              ∧ queue_heap (pump i line s) = queue_heap s
              ∧ delivered t' = delivered t
              ∧ d ∈ taken_from (q_ t) s ++ queue_items s (q_ t)
          | AtReadline | PipeClosed =>
              queue_heap (pump i line s) = queue_heap s
              ∧ last_output (pump i line s) = last_output s
              ∧ delivered t' = delivered t
              ∧ appended t' = appended t
          end.
Proof.
  intros s.
  destruct (exec_ok es initial initial_ok) as [Hok _].
  pose proof (exec_well_formed es initial initial_well_formed) as (_ & _ & Hwt & _).
  pose proof (exec_conserved es initial initial_well_formed initial_conserved) as Hc.
  fold s in Hok, Hwt, Hc. split.
  - eapply Forall_impl; [exact Hok|]. apply pump_ok_prefix.
  - intros i t line Hi.
    pose proof (Forall_lookup_1 _ _ _ _ Hok Hi) as Ht. unfold pump_ok in Ht.
    pose proof (Forall_lookup_1 _ _ _ _ Hwt Hi) as Hq. cbv beta in Hq.
    pose proof (lookup_lt_Some _ _ _ Hi) as Hlen.
    unfold pump. rewrite Hi.
    destruct (pump_at t) as [|d|d|] eqn:Hpc.
    + destruct line as [|b line]; [|destruct (decode_replace (b :: line))];
        (eexists; split;
         [cbn [threads with_threads log]; by apply list_lookup_insert_eq|done]).
    + eexists. split.
      { cbn [threads with_threads queue_put with_heap].
        by apply list_lookup_insert_eq. }
      cbn [delivered appended set_pump].
      split; [done|]. split; [|done].
      unfold queue_items at 1.
      cbn [queue_heap with_threads queue_put with_heap].
      by rewrite list_lookup_insert_eq.
    + eexists. split.
      { cbn [threads with_threads append_output with_output].
        by apply list_lookup_insert_eq. }
      cbn [delivered appended set_pump].
      split; [done|]. split.
      { unfold read_output at 1.
        cbn [last_output with_threads append_output with_output].
        by rewrite lookup_insert_eq. }
      split; [done|]. split; [done|]. split; [done|].
      rewrite <- (Hc (q_ t)). apply (delivered_put_on s i t d Hi).
      destruct Ht as [_ ->]. apply elem_of_app. right. apply list_elem_of_here.
    + exists t. done.
Qed.

Lemma appended_follows_delivered_witness :
  let s := exec [PostRun (single_block 7 (Some (lit "pass"))) (Some (lit "7")) calm;
                 PumpStep 0 (out_line "hi"); PumpStep 0 []] initial in
  read_output (pump 0 [] s) (lit "7") = read_output s (lit "7") ++ (lit "hi" ++ nl)
  ∧ (lit "hi" ++ nl) ∈ taken_from 0 s ++ queue_items s 0.
Proof.
  destruct (proj2 (appended_follows_delivered
              [PostRun (single_block 7 (Some (lit "pass"))) (Some (lit "7")) calm;
               PumpStep 0 (out_line "hi"); PumpStep 0 []])
              0%nat
              (set_pump (new_pump (0%nat, Stdout) 0 (lit "7"))
                 (AtAppend (lit "hi" ++ nl)) [out_line "hi"] [lit "hi" ++ nl] [])
              [] eq_refl)
    as (t' & _ & _ & Hout & _ & _ & _ & Hin).
  split; [exact Hout | exact Hin].
Defined.

Lemma data_event_blank_line c :
  ends_with_one_blank_line (data_event c) <-> last c ≠ Some newline.
Proof.
  unfold ends_with_one_blank_line, data_event, nl.
  assert (last (lit "data: " ++ c) = Some newline <-> last c = Some newline) as Hl.
  { destruct c as [|x c] using rev_ind.
    - rewrite app_nil_r. split; [by intros [=]|done].
    - by rewrite app_assoc, !last_snoc. }
  split.
  - intros (body & Hb & Hlast) Hc. apply Hlast.
    change [newline; newline] with ([newline] ++ [newline]) in Hb.
    rewrite !app_assoc in Hb. do 2 apply app_inj_tail in Hb as [Hb _].
    rewrite <- Hb. by apply Hl.
  - intros Hc. exists (lit "data: " ++ c). split.
    + by rewrite <- !app_assoc.
    + intros H. by apply Hc, Hl.
Qed.

Lemma newline_line_decodes_to_newline bs c :
  decode_replace (bs ++ [Byte.x0a]) = inr c -> last c = Some newline.
Proof.
  unfold decode_replace. intros Hc.
  destruct (utf8_decode_replace_total bs) as [c0 Hc0].
  rewrite (utf8_decode_ascii_suffix bs [Byte.x0a] c0) in Hc; [|by repeat constructor|done].
  injection Hc as <-. apply last_snoc.
Qed.

(** C8 (as the code has it).
    - A stream response begins with the directive: the first step of
      the generator that [GET /stream/<program>] creates yields
      ["retry: 200"] and a blank line, and nothing before it.
    - A polling generator relays the chunks waiting on its queue one
      item each, in queue order, each item being ["data: "], the
      chunk, and two newlines, and takes them off the queue.
    - In every state the server can reach a response holds nothing
      else: the directive, then one such item per chunk taken.
    - The item ends with exactly one blank line only if the chunk does
      not end in a newline; the chunk of a line that [readline]
      returned with its newline does, so its item ends with two. *)
Theorem stream_is_framed :
  (∀ s path,
     ∃ g, responses (exec [GetStream path; StreamStep (length (responses s))] s)
            !! length (responses s) = Some g
          ∧ yielded g = [lit "retry: 200" ++ [newline; newline]])
  ∧ (∀ s j g r,
       responses s !! j = Some g -> gen_at g = GenInner -> gen_q g = Some r ->
       ∃ g', responses (exec (relay j (length (queue_items s r))) s) !! j = Some g'
         ∧ yielded g'
           = yielded g
             ++ ((λ c, lit "data: " ++ c ++ [newline; newline]) <$> queue_items s r)
         ∧ taken g' = taken g ++ queue_items s r
         ∧ queue_items (exec (relay j (length (queue_items s r))) s) r = [])
  ∧ (∀ es,
       Forall (λ g, framed g
                    ∧ yielded g `prefix_of` retry_directive :: (data_event <$> taken g)
                    ∧ (length (taken g) ≤ length (yielded g))%nat)
              (responses (exec es initial)))
  ∧ (∀ c, ends_with_one_blank_line (data_event c) <-> last c ≠ Some newline)
  ∧ (∀ bs c, decode_replace (bs ++ [Byte.x0a]) = inr c ->
       ¬ ends_with_one_blank_line (data_event c)).
Proof.
  split; [|split; [|split; [|split]]].
  - intros s path. cbn [exec fold_left step].
    unfold event_stream, stream_program. cbn [responses with_responses].
    rewrite list_lookup_middle by done. cbn [gen_at].
    eexists. split.
    + cbn [responses with_responses]. apply list_lookup_insert_eq.
      rewrite length_app. cbn. lia.
    + reflexivity.
  - intros s j g r Hj Hpc Hq.
    destruct (relay_all j (queue_items s r) s g r Hj Hpc Hq eq_refl)
      as (g' & Hj' & _ & _ & Htk & Hy & Hitems & _).
    exists g'. done.
  - intros es. destruct (exec_ok es initial initial_ok) as [_ Hg].
    eapply Forall_impl; [exact Hg|]. intros g Hf.
    split; [exact Hf | by apply framed_prefix].
  - apply data_event_blank_line.
  - intros bs c Hc H. apply data_event_blank_line in H.
    by apply H, (newline_line_decodes_to_newline bs).
Qed.

Lemma stream_is_framed_witness :
  ∃ g',
    let s := exec ([PostRun (single_block 42 (Some (lit "print('hello')")))
                      (Some (lit "42")) calm;
                    GetStream (lit "42"); StreamStep 0; StreamStep 0]
                   ++ pump_alone 0 [out_line "hello"]) initial in
    responses (exec (relay 0 (length (queue_items s 0))) s) !! 0%nat = Some g'
    ∧ yielded g'
      = [retry_directive] ++ [lit "data: " ++ (lit "hello" ++ nl) ++ [newline; newline]].
Proof.
  destruct (proj1 (proj2 stream_is_framed)
              (exec ([PostRun (single_block 42 (Some (lit "print('hello')")))
                        (Some (lit "42")) calm;
                      GetStream (lit "42"); StreamStep 0; StreamStep 0]
                     ++ pump_alone 0 [out_line "hello"]) initial)
              0%nat
              {| gen_q := Some 0%nat; gen_at := GenInner; taken := [];
                 yielded := [retry_directive] |}
              0%nat eq_refl eq_refl eq_refl)
    as (g' & Hj & Hy & _).
  exists g'. split; [exact Hj | exact Hy].
Defined.

(** C8, refuted as stated: program 42 prints [hello]; the viewer's
    response holds the directive and then ["data: hello"] followed by
    three newlines, which is not an event terminated by exactly one
    blank line. *)
Lemma newline_chunk_gets_two_blank_lines :
  let s := exec ([PostRun (single_block 42 (Some (lit "print('hello')")))
                    (Some (lit "42")) calm;
                  GetStream (lit "42"); StreamStep 0; StreamStep 0]
                 ++ pump_alone 0 [out_line "hello"] ++ relay 0 1) initial in
  (yielded <$> responses s)
  = [[lit "retry: 200" ++ [newline; newline];
      lit "data: hello" ++ [newline; newline; newline]]]
  ∧ ¬ ends_with_one_blank_line (lit "data: hello" ++ [newline; newline; newline]).
Proof.
  split; [vm_compute; reflexivity|].
  intros (body & Hb & Hlast). apply Hlast.
  change (lit "data: hello" ++ [newline; newline; newline])
    with ((lit "data: hello" ++ [newline]) ++ [newline; newline]) in Hb.
  apply app_inv_tail in Hb. by rewrite <- Hb.
Qed.
